(** * MELD replica exchange: the master coordination loop

    A shallow embedding of [meld/remd/master_runner.py]
    (class [MasterReplicaExchangeRunner]) and the properties of its
    bias ladder, ramp weight, state permutation and run loop.

    Python integers are unbounded and are modelled as [Z]; Python floats
    are IEEE 754 binary64 values and are modelled by the bit-level
    specification [spec_float] at precision 53 and maximal exponent 1024;
    replica states are mutable objects and live in a heap indexed by
    object identity. *)

From Stdlib Require Import ZArith Lia SpecFloat.
From stdpp Require Import gmap list.

Open Scope Z_scope.

(** ** Python exceptions and fallible computations *)

Inductive exn : Type :=
  | AssertionError
  | IndexError
  | ZeroDivisionError
  | OverflowError
  | AttributeError
  | CollaboratorError (code : Z).

Inductive result (A : Type) : Type :=
  | Ok (a : A)
  | Raise (e : exn).

Arguments Ok {A} a.
Arguments Raise {A} e.

Definition rbind {A B} (r : result A) (k : A -> result B) : result B :=
  match r with
  | Ok a => k a
  | Raise e => Raise e
  end.

Fixpoint rmapM {A B} (f : A -> result B) (l : list A) : result (list B) :=
  match l with
  | [] => Ok []
  | x :: l' => rbind (f x) (fun y => rbind (rmapM f l') (fun ys => Ok (y :: ys)))
  end.

(** ** Python floats (binary64) *)

Module PyFloat.

Definition prec : Z := 53.
Definition emax : Z := 1024.

Definition float : Type := spec_float.

Definition of_Z (n : Z) : float := binary_normalize prec emax n 0 false.

Definition one : float := of_Z 1.
Definition zero : float := S754_zero false.

Definition sub : float -> float -> float := SFsub prec emax.
Definition mul : float -> float -> float := SFmul prec emax.
Definition div : float -> float -> float := SFdiv prec emax.
Definition ltb : float -> float -> bool := SFltb.
Definition leb : float -> float -> bool := SFleb.

Definition is_zero (x : float) : bool :=
  match x with S754_zero _ => true | _ => false end.

Definition is_infinity (x : float) : bool :=
  match x with S754_infinity _ => true | _ => false end.

Definition is_finite (x : float) : bool :=
  match x with S754_zero _ | S754_finite _ _ _ => true | _ => false end.

(** [float(n)], and the implicit conversion of an int operand in
    [n - 1.0] or [i * delta]: rounded to nearest even, [OverflowError]
    when the integer is too large for a double. *)
Definition of_int (n : Z) : result float :=
  let x := of_Z n in
  if is_infinity x then Raise OverflowError else Ok x.

(** [x / y] on floats: [ZeroDivisionError] when the divisor is zero. *)
Definition truediv (x y : float) : result float :=
  if is_zero y then Raise ZeroDivisionError else Ok (div x y).

End PyFloat.

Abbreviation float := PyFloat.float.

(** *** Rounding in closed form

    One pass of the rounding of [SpecFloat]: a mantissa with too many
    digits for its exponent is shifted right. *)
Definition shift (m e : Z) : Z * Z :=
  let n := fexp PyFloat.prec PyFloat.emax (Zdigits2 m + e) - e in
  if 0 <? n then (m / 2 ^ n, e + n) else (m, e).

(** The float that a rounded mantissa and exponent stand for. *)
Definition classify (sx : bool) (m e : Z) : spec_float :=
  match m with
  | Z0 => S754_zero sx
  | Zpos p =>
      if e <=? PyFloat.emax - PyFloat.prec then S754_finite sx p e
      else S754_infinity sx
  | Zneg _ => S754_nan
  end.

(** [x] is a zero or a finite number of sign [sx]. *)
Definition signed_finite (sx : bool) (x : spec_float) : Prop :=
  match x with
  | S754_zero s | S754_finite s _ _ => s = sx
  | _ => False
  end.

(** [x] has sign [sx] and is at least [2 ^ (k - 1)] in absolute value. *)
Definition magnitude_ge (sx : bool) (k : Z) (x : spec_float) : Prop :=
  match x with
  | S754_finite s m e => s = sx /\ k <= Zdigits2 (Zpos m) + e
  | S754_infinity s => s = sx
  | _ => False
  end.

(** ** The coordinator object *)

(** The data attributes of a [MasterReplicaExchangeRunner].  The ladder,
    the adaptor and the reseeder are collaborator objects; they are part
    of the environment of [run] below. *)
Record Runner : Type := mkRunner {
  n_replicas : Z;
  max_steps : Z;
  step : Z;
  ramp_steps : option Z;
  alphas : list float
}.

Definition set_step (s : Z) (r : Runner) : Runner :=
  mkRunner (n_replicas r) (max_steps r) s (ramp_steps r) (alphas r).

Definition set_alphas (a : list float) (r : Runner) : Runner :=
  mkRunner (n_replicas r) (max_steps r) (step r) (ramp_steps r) a.

(** [range(n)] *)
Definition range (n : Z) : list Z := Z.of_nat <$> seq 0 (Z.to_nat n).

(** [_setup_alphas]:
<<
    delta = 1.0 / (self._n_replicas - 1.0)
    self._alphas = [i * delta for i in range(self._n_replicas)]
>> *)
Definition ladder_delta (n : Z) : result float :=
  rbind (PyFloat.of_int n) (fun nf =>
  PyFloat.truediv PyFloat.one (PyFloat.sub nf PyFloat.one)).

Definition ladder_entry (delta : float) (i : Z) : result float :=
  rbind (PyFloat.of_int i) (fun x => Ok (PyFloat.mul x delta)).

Definition _setup_alphas (self : Runner) : result Runner :=
  rbind (ladder_delta (n_replicas self)) (fun delta =>
  rbind (rmapM (ladder_entry delta) (range (n_replicas self))) (fun a =>
  Ok (set_alphas a self))).

(** [__init__]: the attributes are stored, the step counter starts at 1
    and the ladder is set up. *)
Definition __init__ (n max : Z) (ramp : option Z) : result Runner :=
  _setup_alphas (mkRunner n max 1 ramp []).

(** [_compute_ramp_weight]:
<<
    if self._ramp_steps is None:
        return 1.0
    else:
        if self._step > self._ramp_steps:
            return 1.0
        else:
            return float(self.step + 1) / float(self._ramp_steps)
>> *)
Definition _compute_ramp_weight (self : Runner) : result float :=
  match ramp_steps self with
  | None => Ok PyFloat.one
  | Some rs =>
      if rs <? step self then Ok PyFloat.one
      else
        rbind (PyFloat.of_int (step self + 1)) (fun a =>
        rbind (PyFloat.of_int rs) (fun b =>
        PyFloat.truediv a b))
  end.

(** The closed interval from 0.0 to 1.0. *)
Definition in_unit_interval (w : float) : bool :=
  PyFloat.leb PyFloat.zero w && PyFloat.leb w PyFloat.one.

Definition ramp_weight_in_unit_interval (me : Runner) : bool :=
  match _compute_ramp_weight me with
  | Ok w => in_unit_interval w
  | Raise _ => false
  end.

(** ** Stateful computations that may raise

    A computation over a state [St] returns a value or raises, and in
    both cases leaves a state behind: what was mutated before an
    exception stays mutated. *)

Definition prog (St A : Type) : Type := St -> result A * St.

Definition ret {St A} (a : A) : prog St A := fun s => (Ok a, s).

Definition raise {St A} (e : exn) : prog St A := fun s => (Raise e, s).

Definition bind {St A B} (m : prog St A) (k : A -> prog St B) : prog St B :=
  fun s =>
    match m s with
    | (Ok a, s') => k a s'
    | (Raise e, s') => (Raise e, s')
    end.

Definition lift {St A} (r : result A) : prog St A := fun s => (r, s).

Notation "'do' x <~ m 'in' k" := (bind m (fun x => k))
  (at level 10, x name, m at level 100, k at level 200,
   format "'do'  x  <~  m  'in'  '/' k").

(** A computation that returns normally from the state [s], with a
    result and a final state that satisfy [Q]. *)
Definition succeeds {St A} (m : prog St A) (s : St) (Q : A -> St -> Prop) : Prop :=
  exists a s', m s = (Ok a, s') /\ Q a s'.

(** [[f(x) for x in l]] *)
Fixpoint mapM {St A B} (f : A -> prog St B) (l : list A) : prog St (list B) :=
  match l with
  | [] => ret []
  | x :: l' => do y <~ f x in do ys <~ mapM f l' in ret (y :: ys)
  end.

(** [for i, x in enumerate(l): body], counting from [i] *)
Fixpoint for_enumerate {St A} (body : nat -> A -> prog St unit)
    (i : nat) (l : list A) : prog St unit :=
  match l with
  | [] => ret tt
  | x :: l' => do _ <~ body i x in for_enumerate body (S i) l'
  end.

(** [l[i]] on a Python list: a negative index counts from the end, an
    index outside [-len(l), len(l)) raises [IndexError]. *)
Definition py_index {A} (l : list A) (i : Z) : result A :=
  let j := if i <? 0 then i + Z.of_nat (length l) else i in
  if j <? 0 then Raise IndexError
  else match l !! Z.to_nat j with
       | Some x => Ok x
       | None => Raise IndexError
       end.

(** The inverse of a permutation vector, the P-inverse of the
    round-trip law: its entry [j] is the position of [j] in [P]. *)
Definition index_of (j : Z) (P : list Z) : Z :=
  match list_find (fun p => p = j) P with
  | Some (i, _) => Z.of_nat i
  | None => -1
  end.

Definition inverse_permutation (P : list Z) : list Z :=
  (fun j => index_of j P) <$> range (Z.of_nat (length P)).

(** ** Replica states and the exchange permutation *)

(** Object identities. *)
Definition loc : Type := positive.

Section Coordinator.

(** Simulation coordinates are opaque to the coordinator, and so are
    the attributes of a state other than its positions and energy. *)
Context {Positions Extra : Type}.

Record SystemState : Type := mkState {
  positions : Positions;
  energy : float;
  extra : Extra
}.

Abbreviation heap := (gmap loc SystemState).

Definition set_positions (c : Positions) (s : SystemState) : SystemState :=
  mkState c (energy s) (extra s).

Definition set_energy (e : float) (s : SystemState) : SystemState :=
  mkState (positions s) e (extra s).

(** [s.positions] and [s.energy]; an object that is no state has
    neither attribute. *)
Definition getattr {A} (f : SystemState -> A) (l : loc) : prog heap A :=
  fun h =>
    match h !! l with
    | Some s => (Ok (f s), h)
    | None => (Raise AttributeError, h)
    end.

(** [s.positions = c] and [s.energy = e] mutate the object [s]. *)
Definition setattr (f : SystemState -> SystemState) (l : loc) : prog heap unit :=
  fun h => (Ok tt, alter f l h).

(** [_permute_states]:
<<
  old_coords = [s.positions for s in states]
  old_energy = [s.energy for s in states]
  for i, index in enumerate(permutation_matrix):
      states[i].positions = old_coords[index]
      states[i].energy = old_energy[index]
  return states
>>
    In an assignment the right-hand side is evaluated before the
    target. *)
Definition permute_body (states : list loc) (old_coords : list Positions)
    (old_energy : list float) (i : nat) (index : Z) : prog heap unit :=
  do c <~ lift (py_index old_coords index) in
  do s <~ lift (py_index states (Z.of_nat i)) in
  do _ <~ setattr (set_positions c) s in
  do e <~ lift (py_index old_energy index) in
  do s' <~ lift (py_index states (Z.of_nat i)) in
  setattr (set_energy e) s'.

Definition _permute_states (permutation_matrix : list Z) (states : list loc)
    : prog heap (list loc) :=
  do old_coords <~ mapM (getattr positions) states in
  do old_energy <~ mapM (getattr energy) states in
  do _ <~ for_enumerate (permute_body states old_coords old_energy) 0
         permutation_matrix in
  ret states.

(** The state object that slot [i] of the list [states] refers to. *)
Definition slot (h : heap) (states : list loc) (i : nat) : option SystemState :=
  match states !! i with
  | Some l => h !! l
  | None => None
  end.

(** ** The collaborators of [run]

    The communicator, the simulation runner, the store, the ladder, the
    adaptor and the reseeder are objects of other modules.  Their
    private state is an opaque [World]; a method may read and mutate it
    and the heap of state objects, may allocate states, and may raise.
    The attributes of the coordinator itself are private to it.
    The reseeder is handed the list [states] and may mutate it in
    place: its method returns what the list holds afterwards. *)
Context {Energies AccProbs World : Type}.

Record memory : Type := mkMemory {
  objs : heap;
  world : World
}.

Definition method (A : Type) : Type := prog memory A.

Record Collaborators : Type := {
  (* communicator *)
  comm_n_replicas : World -> Z;
  broadcast_alphas_to_slaves : list float -> method unit;
  barrier : method unit;
  broadcast_states_to_slaves : list loc -> method loc;
  gather_states_from_slaves : loc -> method (list loc);
  broadcast_states_for_energy_calc_to_slaves : list loc -> method unit;
  gather_energies_from_slaves : list float -> method Energies;
  (* system_runner *)
  set_alpha : float -> float -> method unit;
  minimize_then_run : loc -> method loc;
  runner_run : loc -> method loc;
  get_energy : loc -> method float;
  (* store *)
  store_n_replicas : World -> Z;
  load_states : Z -> method (list loc);
  save_states : list loc -> Z -> method unit;
  append_traj : loc -> Z -> method unit;
  save_alphas : list float -> Z -> method unit;
  save_permutation_vector : list Z -> Z -> method unit;
  save_energy_matrix : Energies -> Z -> method unit;
  save_acceptance_probabilities : AccProbs -> Z -> method unit;
  save_data_store : method unit;
  save_remd_runner : Runner -> method unit;
  backup : Z -> method unit;
  (* ladder, adaptor, reseeder *)
  compute_exchanges : Energies -> method (list Z);
  adapt : list float -> Z -> method (list float);
  get_acceptance_probabilities : method AccProbs;
  reseed : Z -> list loc -> method (list loc)
}.

(** What the coordinator does to the outside, in order: the messages
    it logs and the calls it issues, with the arguments it passes. *)
Inductive log_message : Type :=
  | Msg_beginning
  | Msg_running_step (step max : Z)
  | Msg_first_step
  | Msg_running_md
  | Msg_finished (max : Z).

Inductive event : Type :=
  | Log_info (msg : log_message)
  | Load_states (stage : Z)
  | Set_alpha (alpha ramp_weight : float)
  | Adapt (a : list float) (step : Z)
  | Broadcast_alphas_to_slaves (a : list float)
  | Barrier
  | Broadcast_states_to_slaves (states : list loc)
  | Minimize_then_run (state : loc)
  | Run_dynamics (state : loc)
  | Gather_states_from_slaves (state : loc)
  | Broadcast_states_for_energy_calc_to_slaves (states : list loc)
  | Get_energy (state : loc)
  | Gather_energies_from_slaves (e : list float)
  | Compute_exchanges (e : Energies)
  | Reseed (step : Z) (states : list loc)
  | Save_states (states : list loc) (step : Z)
  | Append_traj (state : loc) (step : Z)
  | Save_alphas (a : list float) (step : Z)
  | Save_permutation_vector (pv : list Z) (step : Z)
  | Save_energy_matrix (e : Energies) (step : Z)
  | Get_acceptance_probabilities
  | Save_acceptance_probabilities (ap : AccProbs) (step : Z)
  | Save_data_store
  | Save_remd_runner (pickled : Runner)
  | Backup (step : Z).

(** An entry of the trace: the event and the value the coordinator's
    step counter had when it happened. *)
Record entry : Type := mkEntry {
  counter : Z;
  what : event
}.

Record machine : Type := mkMachine {
  self : Runner;
  mem : memory;
  trace : list entry
}.

Definition record (ev : event) (s : machine) : machine :=
  mkMachine (self s) (mem s) (trace s ++ [mkEntry (step (self s)) ev]).

Definition get_self : prog machine Runner := fun s => (Ok (self s), s).

Definition update_self (f : Runner -> Runner) : prog machine unit :=
  fun s => (Ok tt, mkMachine (f (self s)) (mem s) (trace s)).

Definition read_world {A} (f : World -> A) : prog machine A :=
  fun s => (Ok (f (world (mem s))), s).

Definition log_info (msg : log_message) : prog machine unit :=
  fun s => (Ok tt, record (Log_info msg) s).

(** A call of a collaborator's method: the call is issued, then the
    method runs on the memory. *)
Definition call {A} (ev : event) (m : method A) : prog machine A :=
  fun s =>
    let s1 := record ev s in
    let '(r, mem') := m (mem s1) in
    (r, mkMachine (self s1) mem' (trace s1)).

(** Code of the coordinator that works on the state objects. *)
Definition on_heap {A} (p : prog heap A) : prog machine A :=
  fun s =>
    let '(r, h') := p (objs (mem s)) in
    (r, mkMachine (self s) (mkMemory h' (world (mem s))) (trace s)).

Definition py_assert {St} (b : bool) : prog St unit :=
  if b then ret tt else raise AssertionError.

Variable env : Collaborators.

(** [_compute_energies]:
<<
  my_energies = []
  for state in states:
      my_energies.append(system_runner.get_energy(state))
  return my_energies
>> *)
Definition _compute_energies (states : list loc) : prog machine (list float) :=
  mapM (fun state => call (Get_energy state) (get_energy env state)) states.

(** [run], up to the loop:
<<
  logger.info('Beginning replica exchange')
  assert self._n_replicas == communicator.n_replicas
  assert self._n_replicas == store.n_replicas
  states = store.load_states(stage=self.step - 1)
>> *)
Definition run_setup : prog machine (list loc) :=
  do _ <~ log_info Msg_beginning in
  do me <~ get_self in
  do cn <~ read_world (comm_n_replicas env) in
  do _ <~ py_assert (n_replicas me =? cn) in
  do sn <~ read_world (store_n_replicas env) in
  do _ <~ py_assert (n_replicas me =? sn) in
  call (Load_states (step me - 1)) (load_states env (step me - 1)).

(** One pass through the body of the [while] loop, lines 95 to 146 of
    the source, from the local variable [states] to its new value. *)
Definition run_step (states : list loc) : prog machine (list loc) :=
  do me <~ get_self in
  do _ <~ log_info (Msg_running_step (step me) (max_steps me)) in
  (* update alphas *)
  do ramp_weight <~ lift (_compute_ramp_weight me) in
  do _ <~ call (Set_alpha PyFloat.zero ramp_weight)
               (set_alpha env PyFloat.zero ramp_weight) in
  do a <~ call (Adapt (alphas me) (step me)) (adapt env (alphas me) (step me)) in
  do _ <~ update_self (set_alphas a) in
  do _ <~ call (Broadcast_alphas_to_slaves a) (broadcast_alphas_to_slaves env a) in
  do _ <~ call Barrier (barrier env) in
  (* do one step *)
  do my_state <~ call (Broadcast_states_to_slaves states)
                      (broadcast_states_to_slaves env states) in
  do _ <~ call Barrier (barrier env) in
  do my_state <~
     (if step me =? 1 then
        do _ <~ log_info Msg_first_step in
        call (Minimize_then_run my_state) (minimize_then_run env my_state)
      else
        do _ <~ log_info Msg_running_md in
        call (Run_dynamics my_state) (runner_run env my_state)) in
  (* gather all of the states *)
  do states <~ call (Gather_states_from_slaves my_state)
                    (gather_states_from_slaves env my_state) in
  do _ <~ call Barrier (barrier env) in
  (* send them to the slaves *)
  do _ <~ call (Broadcast_states_for_energy_calc_to_slaves states)
               (broadcast_states_for_energy_calc_to_slaves env states) in
  do _ <~ call Barrier (barrier env) in
  (* compute our energy for each state *)
  do my_energies <~ _compute_energies states in
  do energies <~ call (Gather_energies_from_slaves my_energies)
                      (gather_energies_from_slaves env my_energies) in
  do _ <~ call Barrier (barrier env) in
  (* ask the ladder how to permute things *)
  do permutation_vector <~ call (Compute_exchanges energies)
                                (compute_exchanges env energies) in
  do states <~ on_heap (_permute_states permutation_vector states) in
  (* perform reseeding if it is time *)
  do states <~ call (Reseed (step me) states) (reseed env (step me) states) in
  (* store everything *)
  do _ <~ call (Save_states states (step me)) (save_states env states (step me)) in
  do state0 <~ lift (py_index states 0) in
  do _ <~ call (Append_traj state0 (step me)) (append_traj env state0 (step me)) in
  do _ <~ call (Save_alphas a (step me)) (save_alphas env a (step me)) in
  do _ <~ call (Save_permutation_vector permutation_vector (step me))
               (save_permutation_vector env permutation_vector (step me)) in
  do _ <~ call (Save_energy_matrix energies (step me))
               (save_energy_matrix env energies (step me)) in
  do ap <~ call Get_acceptance_probabilities (get_acceptance_probabilities env) in
  do _ <~ call (Save_acceptance_probabilities ap (step me))
               (save_acceptance_probabilities env ap (step me)) in
  do _ <~ call Save_data_store (save_data_store env) in
  (* on to the next step! *)
  do _ <~ update_self (fun r => set_step (step r + 1) r) in
  do me' <~ get_self in
  do _ <~ call (Save_remd_runner me') (save_remd_runner env me') in
  do _ <~ call (Backup (step me' - 1)) (backup env (step me' - 1)) in
  ret states.

(** [while self._step <= self._max_steps: ...]; [None] when the fuel
    runs out before the loop exits. *)
Fixpoint run_loop (fuel : nat) (states : list loc) (s : machine)
    : option (result unit * machine) :=
  match fuel with
  | O => None
  | S fuel' =>
      if step (self s) <=? max_steps (self s) then
        match run_step states s with
        | (Ok states', s') => run_loop fuel' states' s'
        | (Raise e, s') => Some (Raise e, s')
        end
      else Some (Ok tt, s)
  end.

(** [run(communicator, system_runner, store)] *)
Definition run (fuel : nat) (s : machine) : option (result unit * machine) :=
  match run_setup s with
  | (Raise e, s') => Some (Raise e, s')
  | (Ok states, s') =>
      match run_loop fuel states s' with
      | None => None
      | Some (Raise e, s'') => Some (Raise e, s'')
      | Some (Ok _, s'') => Some (log_info (Msg_finished (max_steps (self s''))) s'')
      end
  end.

(** ** Reading a trace *)

Definition select {A} (f : event -> option A) (tr : list entry) : list A :=
  omap (fun e => f (what e)) tr.

Definition iteration_of (ev : event) : option Z :=
  match ev with Log_info (Msg_running_step k _) => Some k | _ => None end.

Definition save_states_of (ev : event) : option Z :=
  match ev with Save_states _ k => Some k | _ => None end.

Definition append_traj_of (ev : event) : option Z :=
  match ev with Append_traj _ k => Some k | _ => None end.

Definition save_alphas_of (ev : event) : option Z :=
  match ev with Save_alphas _ k => Some k | _ => None end.

Definition save_permutation_vector_of (ev : event) : option Z :=
  match ev with Save_permutation_vector _ k => Some k | _ => None end.

Definition save_energy_matrix_of (ev : event) : option Z :=
  match ev with Save_energy_matrix _ k => Some k | _ => None end.

Definition save_acceptance_probabilities_of (ev : event) : option Z :=
  match ev with Save_acceptance_probabilities _ k => Some k | _ => None end.

Definition save_remd_runner_of (ev : event) : option Runner :=
  match ev with Save_remd_runner r => Some r | _ => None end.

Definition set_alpha_of (ev : event) : option (float * float) :=
  match ev with Set_alpha a w => Some (a, w) | _ => None end.

Definition load_states_of (ev : event) : option Z :=
  match ev with Load_states stage => Some stage | _ => None end.

Definition adapt_of (ev : event) : option (list float) :=
  match ev with Adapt a _ => Some a | _ => None end.

Definition broadcast_alphas_of (ev : event) : option (list float) :=
  match ev with Broadcast_alphas_to_slaves a => Some a | _ => None end.

Definition saved_alphas_of (ev : event) : option (list float) :=
  match ev with Save_alphas a _ => Some a | _ => None end.

Definition compute_exchanges_of (ev : event) : option Energies :=
  match ev with Compute_exchanges e => Some e | _ => None end.

Definition saved_energy_matrix_of (ev : event) : option Energies :=
  match ev with Save_energy_matrix e _ => Some e | _ => None end.

Definition adapt_call_of (ev : event) : option (list float * Z) :=
  match ev with Adapt a k => Some (a, k) | _ => None end.

Definition gather_energies_of (ev : event) : option (list float) :=
  match ev with Gather_energies_from_slaves e => Some e | _ => None end.

(** The steps at which the dynamics was started with a minimization,
    and those at which it was not. *)
Definition minimize_of (e : entry) : option Z :=
  match what e with Minimize_then_run _ => Some (counter e) | _ => None end.

Definition run_dynamics_of (e : entry) : option Z :=
  match what e with Run_dynamics _ => Some (counter e) | _ => None end.

(** The collective operations of the communicator, which the workers
    have to match one for one. *)
Inductive collective : Type :=
  | Coll_broadcast_alphas
  | Coll_barrier
  | Coll_broadcast_states
  | Coll_gather_states
  | Coll_broadcast_states_for_energy_calc
  | Coll_gather_energies.

Definition collective_of (ev : event) : option collective :=
  match ev with
  | Broadcast_alphas_to_slaves _ => Some Coll_broadcast_alphas
  | Barrier => Some Coll_barrier
  | Broadcast_states_to_slaves _ => Some Coll_broadcast_states
  | Gather_states_from_slaves _ => Some Coll_gather_states
  | Broadcast_states_for_energy_calc_to_slaves _ =>
      Some Coll_broadcast_states_for_energy_calc
  | Gather_energies_from_slaves _ => Some Coll_gather_energies
  | _ => None
  end.

Definition step_protocol : list collective :=
  [Coll_broadcast_alphas; Coll_barrier;
   Coll_broadcast_states; Coll_barrier;
   Coll_gather_states; Coll_barrier;
   Coll_broadcast_states_for_energy_calc; Coll_barrier;
   Coll_gather_energies; Coll_barrier].

(** An entry whose step argument agrees with the step counter at the
    time of the call: the stage loaded and the step backed up are the
    step before, every other tag is the current step. *)
Definition well_tagged (e : entry) : Prop :=
  match what e with
  | Log_info (Msg_running_step k _) => k = counter e
  | Load_states stage => stage = counter e - 1
  | Adapt _ k | Reseed k _ | Save_states _ k | Append_traj _ k
  | Save_alphas _ k | Save_permutation_vector _ k | Save_energy_matrix _ k
  | Save_acceptance_probabilities _ k => k = counter e
  | Save_remd_runner r => step r = counter e
  | Backup k => k = counter e - 1
  | _ => True
  end.

(** The number of times the coordinator was handed to
    [save_remd_runner]. *)
Definition pickles (tr : list entry) : Z :=
  Z.of_nat (length (select save_remd_runner_of tr)).

(** The configuration of a coordinator: what [run] never changes. *)
Definition same_configuration (r0 r : Runner) : Prop :=
  n_replicas r = n_replicas r0 /\ max_steps r = max_steps r0 /\
  ramp_steps r = ramp_steps r0.

(** What holds of the coordinator and its trace at every point of a
    run that started with the coordinator [r0] and an empty trace. *)
Definition consistent (r0 : Runner) (s : machine) : Prop :=
  Forall well_tagged (trace s) /\
  step (self s) = step r0 + pickles (trace s) /\
  same_configuration r0 (self s).

(** A computation that takes states satisfying [P] to states
    satisfying [Q], whether it returns or raises. *)
Definition leads {A} (P Q : machine -> Prop) (m : prog machine A) : Prop :=
  forall s, P s -> Q (m s).2.

(** The same, at a point where the step counter is [k]. *)
Definition at_step (r0 : Runner) (k : Z) (s : machine) : Prop :=
  consistent r0 s /\ step (self s) = k.

(** The calls issued, as opposed to the messages logged. *)
Definition is_call (e : entry) : bool :=
  match what e with Log_info _ => false | _ => true end.

(** The checkpoint of a step, as the store sees it: each write with
    the step it is tagged with, next to the value the coordinator's
    step counter had when the write was issued. *)
Inductive checkpoint : Type :=
  | Ck_states (tag : Z)
  | Ck_traj (tag : Z)
  | Ck_alphas (tag : Z)
  | Ck_permutation_vector (tag : Z)
  | Ck_energy_matrix (tag : Z)
  | Ck_acceptance_probabilities (tag : Z)
  | Ck_data_store
  | Ck_remd_runner (pickled_step : Z)
  | Ck_backup (tag : Z).

Definition checkpoint_of (e : entry) : option (Z * checkpoint) :=
  match what e with
  | Save_states _ k => Some (counter e, Ck_states k)
  | Append_traj _ k => Some (counter e, Ck_traj k)
  | Save_alphas _ k => Some (counter e, Ck_alphas k)
  | Save_permutation_vector _ k => Some (counter e, Ck_permutation_vector k)
  | Save_energy_matrix _ k => Some (counter e, Ck_energy_matrix k)
  | Save_acceptance_probabilities _ k =>
      Some (counter e, Ck_acceptance_probabilities k)
  | Save_data_store => Some (counter e, Ck_data_store)
  | Save_remd_runner r => Some (counter e, Ck_remd_runner (step r))
  | Backup k => Some (counter e, Ck_backup k)
  | _ => None
  end.

Definition checkpoint_view (tr : list entry) : list (Z * checkpoint) :=
  omap checkpoint_of tr.

(** What the loop body writes in the pass that completes step [k]. *)
Definition checkpoint_of_step (k : Z) : list (Z * checkpoint) :=
  [(k, Ck_states k); (k, Ck_traj k); (k, Ck_alphas k);
   (k, Ck_permutation_vector k); (k, Ck_energy_matrix k);
   (k, Ck_acceptance_probabilities k); (k, Ck_data_store);
   (k + 1, Ck_remd_runner (k + 1)); (k + 1, Ck_backup k)].

(** All the entries of the pass that completes step [step me], given
    what the collaborators returned. *)
Definition step_entries (me : Runner) (states : list loc) (w : float)
    (a : list float) (my_state my_state' : loc) (gathered : list loc)
    (my_energies : list float) (energies : Energies) (pv : list Z)
    (states' : list loc) (state0 : loc) (ap : AccProbs) : list entry :=
  let k := step me in
  let now := mkEntry k in
  [now (Log_info (Msg_running_step k (max_steps me)));
   now (Set_alpha PyFloat.zero w);
   now (Adapt (alphas me) k);
   now (Broadcast_alphas_to_slaves a);
   now Barrier;
   now (Broadcast_states_to_slaves states);
   now Barrier;
   now (Log_info (if k =? 1 then Msg_first_step else Msg_running_md));
   now (if k =? 1 then Minimize_then_run my_state else Run_dynamics my_state);
   now (Gather_states_from_slaves my_state');
   now Barrier;
   now (Broadcast_states_for_energy_calc_to_slaves gathered);
   now Barrier]
  ++ ((fun l => now (Get_energy l)) <$> gathered) ++
  [now (Gather_energies_from_slaves my_energies);
   now Barrier;
   now (Compute_exchanges energies);
   now (Reseed k gathered);
   now (Save_states states' k);
   now (Append_traj state0 k);
   now (Save_alphas a k);
   now (Save_permutation_vector pv k);
   now (Save_energy_matrix energies k);
   now Get_acceptance_probabilities;
   now (Save_acceptance_probabilities ap k);
   now Save_data_store;
   mkEntry (k + 1) (Save_remd_runner (set_step (k + 1) (set_alphas a me)));
   mkEntry (k + 1) (Backup k)].

(** A computation that only ever adds entries satisfying [G] to the
    trace, whether it returns or raises. *)
Definition emits {A} (G : entry -> Prop) (m : prog machine A) : Prop :=
  forall s, exists tr, trace (m s).2 = trace s ++ tr /\ Forall G tr.

(** [set_alpha] is called with base bias [0.]. *)
Definition base_bias_zero (e : entry) : Prop :=
  forall alpha w, what e = Set_alpha alpha w -> alpha = PyFloat.zero.

(** ** Collaborators that do their job

    A method that returns normally, whatever the memory, with a result
    satisfying [post]; objects that are referred to are never freed. *)
Definition grows (m m' : memory) : Prop :=
  forall l, is_Some (objs m !! l) -> is_Some (objs m' !! l).

Definition returns {A} (f : method A) (post : A -> memory -> Prop) : Prop :=
  forall m, exists a m', f m = (Ok a, m') /\ grows m m' /\ post a m'.

Definition anything {A} (_ : A) (_ : memory) : Prop := True.

(** A value that a method returns, and an exception that it raises, on
    some memory. *)
Definition returned_by {A} (f : method A) (a : A) : Prop :=
  exists m m', f m = (Ok a, m').

Definition raised_by {A} (f : method A) (e : exn) : Prop :=
  exists m m', f m = (Raise e, m').

(** One state object per replica index. *)
Definition replicas (N : Z) (states : list loc) (m : memory) : Prop :=
  Z.of_nat (length states) = N /\ NoDup states /\
  Forall (fun l => is_Some (objs m !! l)) states.

(** A permutation vector for [N] replicas. *)
Definition permutation_vector_for (N : Z) (pv : list Z) (_ : memory) : Prop :=
  Z.of_nat (length pv) = N /\ Forall (fun p => 0 <= p < N) pv.

Record well_behaved (N : Z) : Prop := {
  wb_broadcast_alphas_to_slaves :
    forall a, returns (broadcast_alphas_to_slaves env a) anything;
  wb_barrier : returns (barrier env) anything;
  wb_broadcast_states_to_slaves :
    forall states, returns (broadcast_states_to_slaves env states) anything;
  wb_gather_states_from_slaves :
    forall l, returns (gather_states_from_slaves env l) (replicas N);
  wb_broadcast_states_for_energy_calc_to_slaves :
    forall states,
      returns (broadcast_states_for_energy_calc_to_slaves env states) anything;
  wb_gather_energies_from_slaves :
    forall e, returns (gather_energies_from_slaves env e) anything;
  wb_set_alpha : forall alpha w, returns (set_alpha env alpha w) anything;
  wb_minimize_then_run : forall l, returns (minimize_then_run env l) anything;
  wb_runner_run : forall l, returns (runner_run env l) anything;
  wb_get_energy : forall l, returns (get_energy env l) anything;
  wb_load_states : forall stage, returns (load_states env stage) anything;
  wb_save_states : forall states k, returns (save_states env states k) anything;
  wb_append_traj : forall l k, returns (append_traj env l k) anything;
  wb_save_alphas : forall a k, returns (save_alphas env a k) anything;
  wb_save_permutation_vector :
    forall pv k, returns (save_permutation_vector env pv k) anything;
  wb_save_energy_matrix :
    forall e k, returns (save_energy_matrix env e k) anything;
  wb_save_acceptance_probabilities :
    forall ap k, returns (save_acceptance_probabilities env ap k) anything;
  wb_save_data_store : returns (save_data_store env) anything;
  wb_save_remd_runner : forall r, returns (save_remd_runner env r) anything;
  wb_backup : forall k, returns (backup env k) anything;
  wb_compute_exchanges :
    forall e, returns (compute_exchanges env e) (permutation_vector_for N);
  wb_adapt : forall a k, returns (adapt env a k) anything;
  wb_get_acceptance_probabilities :
    returns (get_acceptance_probabilities env) anything;
  wb_reseed :
    forall k states m, replicas N states m ->
      exists states' m',
        reseed env k states m = (Ok states', m') /\ grows m m' /\
        replicas N states' m'
}.

End Coordinator.

(** ** A small concrete setting: two replicas *)
Module Example.

Definition State : Type := @SystemState Z unit.
Definition Memory : Type := @memory Z unit unit.
Definition Machine : Type := @machine Z unit (list float) (list float) unit.

Definition state_at (x : Z) (e : Z) : State := mkState x (PyFloat.of_Z e) tt.

Definition workers : gmap loc State :=
  <[1%positive := state_at 10 1]> (<[2%positive := state_at 20 2]> ∅).

Definition quiet {A} (a : A) : @method Z unit unit A := fun m => (Ok a, m).

(** Gathering makes the two states of the workers available. *)
Definition gather : @method Z unit unit (list loc) :=
  fun m => (Ok [1%positive; 2%positive], mkMemory (objs m ∪ workers) (world m)).

Definition env : @Collaborators Z unit (list float) (list float) unit := {|
  comm_n_replicas := fun _ => 2;
  broadcast_alphas_to_slaves := fun _ => quiet tt;
  barrier := quiet tt;
  broadcast_states_to_slaves := fun _ => quiet 1%positive;
  gather_states_from_slaves := fun _ => gather;
  broadcast_states_for_energy_calc_to_slaves := fun _ => quiet tt;
  gather_energies_from_slaves := fun e => quiet e;
  set_alpha := fun _ _ => quiet tt;
  minimize_then_run := fun l => quiet l;
  runner_run := fun l => quiet l;
  get_energy := fun _ => quiet PyFloat.one;
  store_n_replicas := fun _ => 2;
  load_states := fun _ => gather;
  save_states := fun _ _ => quiet tt;
  append_traj := fun _ _ => quiet tt;
  save_alphas := fun _ _ => quiet tt;
  save_permutation_vector := fun _ _ => quiet tt;
  save_energy_matrix := fun _ _ => quiet tt;
  save_acceptance_probabilities := fun _ _ => quiet tt;
  save_data_store := quiet tt;
  save_remd_runner := fun _ => quiet tt;
  backup := fun _ => quiet tt;
  compute_exchanges := fun _ => quiet [1; 0];
  adapt := fun a _ => quiet a;
  get_acceptance_probabilities := quiet [];
  reseed := fun _ states => quiet states
|}.

Definition memory0 : Memory := mkMemory ∅ tt.

Definition runner (K : Z) (ramp : option Z) : Runner :=
  match __init__ 2 K ramp with
  | Ok r => r
  | Raise _ => mkRunner 2 K 1 ramp []
  end.

Definition fresh (K : Z) (ramp : option Z) : Machine :=
  mkMachine (runner K ramp) memory0 [].

(** Four states, for the permutation of the scenario. *)
Definition four : gmap loc State :=
  <[1%positive := state_at 10 1]> (<[2%positive := state_at 20 2]>
  (<[3%positive := state_at 30 3]> (<[4%positive := state_at 40 4]> ∅))).

Definition four_states : list loc := [1; 2; 3; 4]%positive.

(** The same collaborators, with a store and a ladder of one's choice. *)
Definition env_with (load : Z -> @method Z unit unit (list loc))
    (exchange : list float -> @method Z unit unit (list Z))
    : @Collaborators Z unit (list float) (list float) unit := {|
  comm_n_replicas := fun _ => 2;
  broadcast_alphas_to_slaves := fun _ => quiet tt;
  barrier := quiet tt;
  broadcast_states_to_slaves := fun _ => quiet 1%positive;
  gather_states_from_slaves := fun _ => gather;
  broadcast_states_for_energy_calc_to_slaves := fun _ => quiet tt;
  gather_energies_from_slaves := fun e => quiet e;
  set_alpha := fun _ _ => quiet tt;
  minimize_then_run := fun l => quiet l;
  runner_run := fun l => quiet l;
  get_energy := fun _ => quiet PyFloat.one;
  store_n_replicas := fun _ => 2;
  load_states := load;
  save_states := fun _ _ => quiet tt;
  append_traj := fun _ _ => quiet tt;
  save_alphas := fun _ _ => quiet tt;
  save_permutation_vector := fun _ _ => quiet tt;
  save_energy_matrix := fun _ _ => quiet tt;
  save_acceptance_probabilities := fun _ _ => quiet tt;
  save_data_store := quiet tt;
  save_remd_runner := fun _ => quiet tt;
  backup := fun _ => quiet tt;
  compute_exchanges := exchange;
  adapt := fun a _ => quiet a;
  get_acceptance_probabilities := quiet [];
  reseed := fun _ states => quiet states
|}.

Definition failing {A} (code : Z) : @method Z unit unit A :=
  fun m => (Raise (CollaboratorError code), m).

(** A store that cannot load, and a ladder that fails. *)
Definition env_no_store := env_with (fun _ => failing 5) (fun _ => quiet [1; 0]).
Definition env_no_ladder := env_with (fun _ => gather) (fun _ => failing 7).

(** A coordinator that was stopped after step 1 of 3. *)
Definition resumed : Machine := mkMachine (mkRunner 2 3 2 None (alphas (runner 3 None))) memory0 [].

(** Four states that carry a label besides positions and energy. *)
Definition labelled : gmap loc (@SystemState Z Z) :=
  <[1%positive := mkState 10 (PyFloat.of_Z 1) 100]>
  (<[2%positive := mkState 20 (PyFloat.of_Z 2) 200]>
  (<[3%positive := mkState 30 (PyFloat.of_Z 3) 300]>
  (<[4%positive := mkState 40 (PyFloat.of_Z 4) 400]> ∅))).

End Example.

(** * Properties *)

(** ** Binary64 rounding *)

Section FloatFacts.
Import PyFloat.

Lemma digits2_pos_size p : digits2_pos p = Pos.size p.
Proof. induction p as [p IH|p IH|]; simpl; by rewrite ?IH. Qed.

Lemma Zdigits2_log2 p : Zdigits2 (Zpos p) = Z.log2 (Zpos p) + 1.
Proof.
  simpl. rewrite digits2_pos_size.
  destruct p as [p|p|]; simpl; lia.
Qed.

Lemma Zdigits2_nonneg m : 0 <= m -> 0 <= Zdigits2 m.
Proof. destruct m; simpl; lia. Qed.

Lemma Zdigits2_pos m : 0 < m -> 1 <= Zdigits2 m.
Proof. destruct m; simpl; lia. Qed.

Lemma Zdigits2_lt m : 0 <= m -> m < 2 ^ Zdigits2 m.
Proof.
  destruct m as [|p|p]; [done| |lia]. intros _.
  rewrite Zdigits2_log2. apply (Z.log2_spec (Zpos p)). lia.
Qed.

Lemma Zdigits2_ge m : 0 < m -> 2 ^ (Zdigits2 m - 1) <= m.
Proof.
  destruct m as [|p|p]; [lia| |lia]. intros _.
  rewrite Zdigits2_log2. replace (Z.log2 (Z.pos p) + 1 - 1) with (Z.log2 (Z.pos p)) by lia.
  apply (Z.log2_spec (Zpos p)). lia.
Qed.

Lemma Zdigits2_le_of_lt m k : 0 <= m -> 0 <= k -> m < 2 ^ k -> Zdigits2 m <= k.
Proof.
  intros Hm Hk Hlt. destruct (Z.eq_dec m 0) as [->|Hne]; [done|].
  pose proof (Zdigits2_ge m ltac:(lia)) as Hge.
  pose proof (Zdigits2_pos m ltac:(lia)).
  assert (2 ^ (Zdigits2 m - 1) < 2 ^ k) as Hp by lia.
  apply Z.pow_lt_mono_r_iff in Hp; lia.
Qed.

Lemma Zdigits2_gt_of_le m k : 0 <= k -> 2 ^ k <= m -> k + 1 <= Zdigits2 m.
Proof.
  intros Hk Hle.
  assert (0 < m) by (pose proof (Z.pow_pos_nonneg 2 k); lia).
  pose proof (Zdigits2_lt m ltac:(lia)) as Hlt.
  pose proof (Zdigits2_pos m ltac:(lia)).
  assert (2 ^ k < 2 ^ Zdigits2 m) as Hp by lia.
  apply Z.pow_lt_mono_r_iff in Hp; lia.
Qed.

Lemma shr_1_m mrs : 0 <= shr_m mrs -> shr_m (shr_1 mrs) = shr_m mrs / 2.
Proof.
  destruct mrs as [m r s]. simpl. intros Hm.
  destruct m as [|[p|p|]|p]; simpl; try lia; try done.
  - rewrite Pos2Z.inj_xI. apply Z.div_unique with 1; lia.
  - rewrite Pos2Z.inj_xO. apply Z.div_unique with 0; lia.
Qed.

Lemma iter_pos_shr p mrs :
  0 <= shr_m mrs -> shr_m (SpecFloat.iter_pos shr_1 p mrs) = shr_m mrs / 2 ^ Zpos p.
Proof.
  revert mrs. induction p as [p IH|p IH|]; intros mrs Hm; simpl SpecFloat.iter_pos.
  - assert (0 <= shr_m (shr_1 mrs)) as H1
      by (rewrite shr_1_m by done; apply Z.div_pos; lia).
    assert (0 <= shr_m (SpecFloat.iter_pos shr_1 p (shr_1 mrs))) as H2
      by (rewrite IH by done; apply Z.div_pos; lia).
    rewrite IH, IH, shr_1_m by done.
    rewrite !Z.div_div by lia. f_equal.
    replace (Z.pos p~1) with (1 + Z.pos p + Z.pos p) by lia.
    rewrite !Z.pow_add_r by lia. ring.
  - assert (0 <= shr_m (SpecFloat.iter_pos shr_1 p mrs)) as H2
      by (rewrite IH by done; apply Z.div_pos; lia).
    rewrite IH, IH by done. rewrite Z.div_div by lia. f_equal.
    replace (Z.pos p~0) with (Z.pos p + Z.pos p) by lia.
    rewrite !Z.pow_add_r by lia. ring.
  - rewrite shr_1_m by done. done.
Qed.

Lemma shr_record_of_loc_m m l : shr_m (shr_record_of_loc m l) = m.
Proof. by destruct l as [|[]]. Qed.

Lemma shr_fexp_shift m e l :
  0 <= m ->
  (shr_m (shr_fexp prec emax m e l).1, (shr_fexp prec emax m e l).2) = shift m e.
Proof.
  intros Hm. unfold shr_fexp, shift, shr.
  destruct (fexp prec emax (Zdigits2 m + e) - e) as [|n|n] eqn:Hn; simpl.
  - by rewrite shr_record_of_loc_m.
  - rewrite iter_pos_shr; rewrite shr_record_of_loc_m; done.
  - by rewrite shr_record_of_loc_m.
Qed.

Lemma round_nearest_even_cases m l :
  round_nearest_even m l = m \/ round_nearest_even m l = m + 1.
Proof.
  unfold round_nearest_even. destruct l as [|[]]; auto.
  destruct (Z.even m); auto.
Qed.

Lemma shift_nonneg m e : 0 <= m -> 0 <= (shift m e).1.
Proof.
  intros Hm. unfold shift.
  destruct (Z.ltb_spec 0 (fexp prec emax (Zdigits2 m + e) - e)); simpl; [|done].
  apply Z.div_pos; [done|]. apply Z.pow_pos_nonneg; lia.
Qed.

Lemma binary_round_aux_shift sx m e l :
  0 <= m ->
  exists m2,
    (m2 = (shift m e).1 \/ m2 = (shift m e).1 + 1) /\
    binary_round_aux prec emax sx m e l =
      classify sx (shift m2 (shift m e).2).1 (shift m2 (shift m e).2).2.
Proof.
  intros Hm. unfold binary_round_aux.
  pose proof (shr_fexp_shift m e l Hm) as H1.
  destruct (shr_fexp prec emax m e l) as [mrs1 e1]. simpl in H1.
  exists (round_nearest_even (shr_m mrs1) (loc_of_shr_record mrs1)).
  rewrite <- H1. simpl. split; [apply round_nearest_even_cases|].
  assert (0 <= round_nearest_even (shr_m mrs1) (loc_of_shr_record mrs1)) as Hm2.
  { assert (0 <= shr_m mrs1).
    { replace (shr_m mrs1) with (shift m e).1 by (by rewrite <- H1).
      by apply shift_nonneg. }
    destruct (round_nearest_even_cases (shr_m mrs1) (loc_of_shr_record mrs1)); lia. }
  pose proof (shr_fexp_shift _ e1 loc_Exact Hm2) as H2.
  destruct (shr_fexp prec emax _ e1 loc_Exact) as [mrs2 e2]. simpl in H2.
  rewrite <- H2. simpl. done.
Qed.


Lemma fexp_eq x : fexp prec emax x = Z.max (x - 53) (-1074).
Proof. reflexivity. Qed.

Lemma Zdigits2_mono m m' : 0 <= m <= m' -> Zdigits2 m <= Zdigits2 m'.
Proof.
  intros [Hm Hle]. destruct (Z.eq_dec m 0) as [->|Hne].
  - apply Zdigits2_nonneg. lia.
  - pose proof (Zdigits2_ge m ltac:(lia)).
    pose proof (Zdigits2_pos m ltac:(lia)).
    pose proof (Zdigits2_gt_of_le m' (Zdigits2 m - 1) ltac:(lia) ltac:(lia)). lia.
Qed.

Lemma Zdigits2_succ m : 0 <= m -> Zdigits2 (m + 1) <= Zdigits2 m + 1.
Proof.
  intros Hm. pose proof (Zdigits2_lt m Hm). pose proof (Zdigits2_nonneg m Hm).
  apply Zdigits2_le_of_lt; [lia..|].
  rewrite Z.pow_add_r, Z.pow_1_r by lia. lia.
Qed.

Lemma Zdigits2_div m n :
  0 <= m -> 0 < n -> Zdigits2 (m / 2 ^ n) <= Z.max (Zdigits2 m - n) 0.
Proof.
  intros Hm Hn. pose proof (Zdigits2_lt m Hm) as Hlt.
  pose proof (Zdigits2_nonneg m Hm).
  assert (0 < 2 ^ n) by (apply Z.pow_pos_nonneg; lia).
  destruct (Z.le_gt_cases n (Zdigits2 m)) as [Hle|Hgt].
  - rewrite Z.max_l by lia. apply Zdigits2_le_of_lt; [|lia|].
    + apply Z.div_pos; lia.
    + apply Z.div_lt_upper_bound; [lia|].
      rewrite <- Z.pow_add_r by lia. by replace (n + (Zdigits2 m - n)) with (Zdigits2 m) by lia.
  - rewrite Z.div_small; [simpl; lia|]. split; [done|].
    eapply Z.lt_le_trans; [exact Hlt|]. apply Z.pow_le_mono_r; lia.
Qed.

(** Rounding a positive mantissa in the normal range keeps it positive
    and keeps its magnitude. *)
Lemma shift_normal m e :
  0 < m -> -1021 <= Zdigits2 m + e ->
  0 < (shift m e).1 /\
  Zdigits2 (shift m e).1 + (shift m e).2 = Zdigits2 m + e /\
  Zdigits2 (shift m e).1 <= Z.max 53 (Z.min 53 (Zdigits2 m)) /\
  (Zdigits2 m <= 53 -> shift m e = (m, e)).
Proof.
  intros Hm Hmag. unfold shift. rewrite fexp_eq.
  pose proof (Zdigits2_pos m Hm) as Hd.
  pose proof (Zdigits2_lt m ltac:(lia)) as Hlt.
  pose proof (Zdigits2_ge m Hm) as Hge.
  destruct (Z.ltb_spec 0 (Z.max (Zdigits2 m + e - 53) (-1074) - e)) as [Hn|Hn]; simpl.
  - replace (Z.max (Zdigits2 m + e - 53) (-1074) - e) with (Zdigits2 m - 53) in * by lia.
    assert (0 < 2 ^ (Zdigits2 m - 53)) by (apply Z.pow_pos_nonneg; lia).
    assert (2 ^ 52 <= m / 2 ^ (Zdigits2 m - 53)) as Hlo.
    { apply Z.div_le_lower_bound; [lia|]. rewrite <- Z.pow_add_r by lia.
      by replace (Zdigits2 m - 53 + 52) with (Zdigits2 m - 1) by lia. }
    assert (m / 2 ^ (Zdigits2 m - 53) < 2 ^ 53) as Hhi.
    { apply Z.div_lt_upper_bound; [lia|]. rewrite <- Z.pow_add_r by lia.
      by replace (Zdigits2 m - 53 + 53) with (Zdigits2 m) by lia. }
    assert (0 < m / 2 ^ (Zdigits2 m - 53)).
    { eapply Z.lt_le_trans; [|exact Hlo]. done. }
    pose proof (Zdigits2_gt_of_le _ 52 ltac:(lia) Hlo).
    pose proof (Zdigits2_le_of_lt (m / 2 ^ (Zdigits2 m - 53)) 53
                  ltac:(lia) ltac:(lia) Hhi).
    repeat split; try lia.
  - repeat split; try lia.
Qed.

Lemma shift_upper m e :
  0 <= m ->
  0 <= (shift m e).1 /\
  (shift m e).2 <= Z.max e (Z.max (Zdigits2 m + e - 53) (-1074)) /\
  Zdigits2 (shift m e).1 + (shift m e).2 <= Z.max (Zdigits2 m + e) (-1074).
Proof.
  intros Hm. split; [by apply shift_nonneg|]. unfold shift. rewrite fexp_eq.
  pose proof (Zdigits2_nonneg m Hm).
  destruct (Z.ltb_spec 0 (Z.max (Zdigits2 m + e - 53) (-1074) - e)) as [Hn|Hn]; simpl.
  - pose proof (Zdigits2_div m _ Hm Hn). lia.
  - lia.
Qed.

Lemma classify_pos sx m e :
  0 < m -> magnitude_ge sx (Zdigits2 m + e) (classify sx m e).
Proof.
  destruct m as [|p|p]; try lia. intros _. simpl.
  destruct (e <=? emax - prec); simpl; [split; [done|lia]|done].
Qed.

Lemma classify_finite sx m e :
  0 <= m -> e <= 971 -> signed_finite sx (classify sx m e).
Proof.
  destruct m as [|p|p]; try lia; intros _ He; simpl; [done|].
  destruct (Z.leb_spec e (emax - prec)) as [?|Hgt]; [done|].
  unfold emax, prec in Hgt. lia.
Qed.

Lemma magnitude_ge_mono sx k k' x :
  k' <= k -> magnitude_ge sx k x -> magnitude_ge sx k' x.
Proof. destruct x; simpl; try done. intros ? [? ?]. split; [done|lia]. Qed.

Lemma binary_round_aux_lo sx m e l :
  0 < m -> -1021 <= Zdigits2 m + e ->
  magnitude_ge sx (Zdigits2 m + e) (binary_round_aux prec emax sx m e l).
Proof.
  intros Hm Hmag.
  destruct (binary_round_aux_shift sx m e l ltac:(lia)) as (m2 & Hm2 & ->).
  destruct (shift_normal m e Hm Hmag) as (H1 & H2 & _ & _).
  assert (0 < m2) by lia.
  assert (Zdigits2 (shift m e).1 <= Zdigits2 m2)
    by (apply Zdigits2_mono; lia).
  destruct (shift_normal m2 (shift m e).2 ltac:(lia) ltac:(lia)) as (H3 & H4 & _ & _).
  eapply magnitude_ge_mono; [|by apply classify_pos]. lia.
Qed.

Lemma binary_round_aux_hi sx m e l :
  0 <= m -> e <= 971 -> Zdigits2 m + e <= 1023 ->
  signed_finite sx (binary_round_aux prec emax sx m e l).
Proof.
  intros Hm He Hmag.
  destruct (binary_round_aux_shift sx m e l Hm) as (m2 & Hm2 & ->).
  destruct (shift_upper m e Hm) as (H1 & H2 & H3).
  assert (0 <= m2) by lia.
  assert (Zdigits2 m2 <= Zdigits2 (shift m e).1 + 1).
  { destruct Hm2 as [->| ->]; [lia|]. by apply Zdigits2_succ. }
  destruct (shift_upper m2 (shift m e).2 ltac:(lia)) as (H4 & H5 & H6).
  apply classify_finite; lia.
Qed.

End FloatFacts.

(** ** Conversions, and the arithmetic of the ladder and the ramp *)

Section FloatOps.
Import PyFloat.

Lemma iter_xO_spec m d :
  Zpos (Pos.iter xO m d) = Zpos m * 2 ^ Zpos d /\
  Zdigits2 (Zpos (Pos.iter xO m d)) = Zdigits2 (Zpos m) + Zpos d.
Proof.
  induction d as [|d [IH1 IH2]] using Pos.peano_ind.
  - simpl. split; lia.
  - rewrite Pos.iter_succ. split.
    + rewrite Pos2Z.inj_xO, IH1, Pos2Z.inj_succ, Z.pow_succ_r by lia. ring.
    + simpl in *. lia.
Qed.

Lemma shl_align_mag mx ex ex' :
  Zdigits2 (Zpos (shl_align mx ex ex').1) + (shl_align mx ex ex').2
    = Zdigits2 (Zpos mx) + ex /\
  (shl_align mx ex ex').2 <= ex.
Proof.
  unfold shl_align. destruct (ex' - ex) as [|d|d] eqn:Hd; simpl; try lia.
  pose proof (iter_xO_spec mx d) as [_ H]. simpl in H. lia.
Qed.

Lemma shl_align_value mx ex ez :
  ez <= ex ->
  Zpos (shl_align mx ex ez).1 = Zpos mx * 2 ^ (ex - ez) /\
  Zdigits2 (Zpos (shl_align mx ex ez).1) = Zdigits2 (Zpos mx) + (ex - ez).
Proof.
  intros Hle. unfold shl_align. destruct (ez - ex) as [|d|d] eqn:Hd; try lia.
  - replace (ex - ez) with 0 by lia. simpl. lia.
  - replace (ex - ez) with (Zpos d) by lia. apply iter_xO_spec.
Qed.

Lemma binary_round_lo sx mx ex :
  -1021 <= Zdigits2 (Zpos mx) + ex ->
  magnitude_ge sx (Zdigits2 (Zpos mx) + ex) (binary_round prec emax sx mx ex).
Proof.
  intros Hmag. unfold binary_round.
  pose proof (shl_align_mag mx ex (fexp prec emax (Zpos (digits2_pos mx) + ex)))
    as [H1 _].
  destruct (shl_align mx ex _) as [mz ez]. simpl in H1.
  replace (Zdigits2 (Zpos mx) + ex) with (Zdigits2 (Zpos mz) + ez)
    by (simpl in *; lia).
  apply binary_round_aux_lo; [done|]. simpl in *. lia.
Qed.

Lemma binary_round_hi sx mx ex :
  ex <= 971 -> Zdigits2 (Zpos mx) + ex <= 1023 ->
  signed_finite sx (binary_round prec emax sx mx ex).
Proof.
  intros He Hmag. unfold binary_round.
  pose proof (shl_align_mag mx ex (fexp prec emax (Zpos (digits2_pos mx) + ex)))
    as [H1 H2].
  destruct (shl_align mx ex _) as [mz ez]. simpl in H1, H2.
  apply binary_round_aux_hi; [done| |]; simpl in *; lia.
Qed.

Lemma of_Z_pos n : 0 < n -> magnitude_ge false (Zdigits2 n) (of_Z n).
Proof.
  destruct n as [|p|p]; try lia. intros _. unfold of_Z. simpl binary_normalize.
  pose proof (binary_round_lo false p 0) as H. rewrite Z.add_0_r in H.
  apply H. simpl. lia.
Qed.

Lemma of_Z_neg n : n < 0 -> magnitude_ge true (Zdigits2 n) (of_Z n).
Proof.
  destruct n as [|p|p]; try lia. intros _. unfold of_Z. simpl binary_normalize.
  pose proof (binary_round_lo true p 0) as H. rewrite Z.add_0_r in H.
  apply H. simpl. lia.
Qed.

Lemma of_Z_finite n :
  - 2 ^ 1023 < n < 2 ^ 1023 -> signed_finite (n <? 0) (of_Z n).
Proof.
  intros Hn. destruct n as [|p|p]; unfold of_Z; simpl binary_normalize.
  - done.
  - apply binary_round_hi; [lia|]. rewrite Z.add_0_r.
    apply (Zdigits2_le_of_lt (Zpos p)); lia.
  - apply binary_round_hi; [lia|]. rewrite Z.add_0_r.
    change (Zdigits2 (Zpos p)) with (Zdigits2 (Zpos p)).
    apply (Zdigits2_le_of_lt (Zpos p)); lia.
Qed.

Lemma signed_finite_not_infinity sx x : signed_finite sx x -> is_infinity x = false.
Proof. by destruct x. Qed.

Lemma magnitude_ge_not_zero sx k x : magnitude_ge sx k x -> is_zero x = false.
Proof. by destruct x. Qed.

Lemma of_int_ok n : - 2 ^ 1023 < n < 2 ^ 1023 -> of_int n = Ok (of_Z n).
Proof.
  intros Hn. unfold of_int.
  by rewrite (signed_finite_not_infinity _ _ (of_Z_finite n Hn)).
Qed.

Lemma one_eq : one = S754_finite false 4503599627370496 (-52).
Proof. reflexivity. Qed.

Lemma SFsub_finite sx mx ex sy my ey :
  SFsub prec emax (S754_finite sx mx ex) (S754_finite sy my ey) =
  binary_normalize prec emax
    (cond_Zopp sx (Zpos (shl_align mx ex (Z.min ex ey)).1) -
     cond_Zopp sy (Zpos (shl_align my ey (Z.min ex ey)).1))
    (Z.min ex ey) false.
Proof. reflexivity. Qed.

Lemma sub_one_lo sx k x :
  magnitude_ge sx k x -> (sx = false -> 2 <= k) ->
  magnitude_ge sx 1 (sub x one).
Proof.
  rewrite one_eq. unfold sub.
  destruct x as [s|s| |s mx ex]; intros Hx Hk; try done.
  rewrite SFsub_finite. simpl magnitude_ge in Hx. destruct Hx as [-> Hmag].
  set (ez := Z.min ex (-52)).
  destruct (shl_align_value mx ex ez ltac:(lia)) as [HA HdA].
  destruct (shl_align_value 4503599627370496 (-52) ez ltac:(lia)) as [HB HdB].
  set (A := Zpos (shl_align mx ex ez).1) in *.
  set (B := Zpos (shl_align 4503599627370496 (-52) ez).1) in *.
  change (Zdigits2 4503599627370496) with 53 in HdB.
  assert (B = 2 ^ (- ez)) as HBv.
  { rewrite HB. change 4503599627370496 with (2 ^ 52).
    rewrite <- Z.pow_add_r by lia. f_equal. lia. }
  assert (0 < B) by (rewrite HBv; apply Z.pow_pos_nonneg; lia).
  change (Zdigits2 (Zpos mx)) with (Zpos (digits2_pos mx)) in *.
  destruct sx; simpl cond_Zopp.
  - destruct (- A - B) as [|p|p] eqn:Hp; try lia.
    simpl binary_normalize.
    assert (Zdigits2 B <= Zdigits2 (Zpos p)) by (apply Zdigits2_mono; lia).
    eapply magnitude_ge_mono; [|apply binary_round_lo]; lia.
  - specialize (Hk eq_refl).
    pose proof (Zdigits2_ge A ltac:(lia)) as HgeA.
    assert (2 * B <= A).
    { eapply Z.le_trans; [|exact HgeA]. rewrite HBv.
      replace (Zdigits2 A - 1) with ((Zdigits2 A - 2 + ez) + 1 + - ez) by lia.
      rewrite !Z.pow_add_r by lia.
      assert (0 < 2 ^ (Zdigits2 A - 2 + ez)) by (apply Z.pow_pos_nonneg; lia).
      pose proof (Z.pow_pos_nonneg 2 (- ez)). nia. }
    destruct (A - B) as [|p|p] eqn:Hp; try lia.
    simpl binary_normalize.
    assert (Zdigits2 B <= Zdigits2 (Zpos p)) by (apply Zdigits2_mono; lia).
    eapply magnitude_ge_mono; [|apply binary_round_lo]; lia.
Qed.

Lemma SFdiv_finite sx mx ex sy my ey :
  SFdiv prec emax (S754_finite sx mx ex) (S754_finite sy my ey) =
  binary_round_aux prec emax (xorb sx sy)
    (SFdiv_core_binary prec emax (Zpos mx) ex (Zpos my) ey).1.1
    (SFdiv_core_binary prec emax (Zpos mx) ex (Zpos my) ey).1.2
    (SFdiv_core_binary prec emax (Zpos mx) ex (Zpos my) ey).2.
Proof.
  unfold SFdiv. by destruct (SFdiv_core_binary _ _ _ _ _ _) as [[mz ez] lz].
Qed.

(** The quotient of two mantissas and its exponent, before rounding. *)
Lemma SFdiv_core_binary_bounds m1 e1 m2 e2 :
  0 < m1 -> 0 < m2 ->
  let r := SFdiv_core_binary prec emax m1 e1 m2 e2 in
  let M := Zdigits2 m1 + e1 - (Zdigits2 m2 + e2) in
  0 <= r.1.1 /\
  r.1.2 <= Z.max (M - 53) (-1074) /\
  Zdigits2 r.1.1 + r.1.2 <= Z.max r.1.2 (M + 1).
Proof.
  intros Hm1 Hm2. unfold SFdiv_core_binary. rewrite fexp_eq.
  set (M := Zdigits2 m1 + e1 - (Zdigits2 m2 + e2)).
  set (e' := Z.min (Z.max (M - 53) (-1074)) (e1 - e2)).
  set (s := e1 - e2 - e').
  assert (0 <= s) by lia.
  set (m' := match s with Zpos _ => Z.shiftl m1 s | 0 => m1 | Zneg _ => 0 end).
  assert (m' = m1 * 2 ^ s) as Hm'.
  { unfold m'. destruct s as [|p|p] eqn:Hs; try lia.
    by rewrite Z.shiftl_mul_pow2. }
  pose proof (Z.div_eucl_eq m' m2 ltac:(lia)) as Heq.
  pose proof (Z.mod_pos_bound m' m2 Hm2) as Hmod.
  unfold Z.modulo in Hmod.
  assert (fst (Z.div_eucl m' m2) = m' / m2) as Hq by done.
  destruct (Z.div_eucl m' m2) as [q r]. simpl in *. subst q.
  assert (0 < 2 ^ s) by (apply Z.pow_pos_nonneg; lia).
  assert (0 <= m' / m2) by (apply Z.div_pos; nia).
  split; [done|]. split; [lia|].
  pose proof (Zdigits2_pos m1 Hm1). pose proof (Zdigits2_pos m2 Hm2).
  pose proof (Zdigits2_lt m1 ltac:(lia)) as Hlt1.
  pose proof (Zdigits2_ge m2 Hm2) as Hge2.
  assert (m' < 2 ^ (Zdigits2 m1 + s)).
  { rewrite Hm', Z.pow_add_r by lia. nia. }
  destruct (Z.le_gt_cases (Zdigits2 m2 - 1) (Zdigits2 m1 + s)) as [Hc|Hc].
  - assert (m' / m2 < 2 ^ (Zdigits2 m1 + s - (Zdigits2 m2 - 1))) as Hlt.
    { apply Z.div_lt_upper_bound; [done|].
      eapply Z.lt_le_trans; [eassumption|].
      replace (Zdigits2 m1 + s)
        with ((Zdigits2 m2 - 1) + (Zdigits2 m1 + s - (Zdigits2 m2 - 1))) at 1 by lia.
      rewrite Z.pow_add_r by lia.
      apply Z.mul_le_mono_nonneg_r; [|done].
      apply Z.pow_nonneg. lia. }
    pose proof (Zdigits2_le_of_lt (m' / m2)
                  (Zdigits2 m1 + s - (Zdigits2 m2 - 1)) ltac:(lia) ltac:(lia) Hlt).
    unfold s, M in *. lia.
  - rewrite Z.div_small; [simpl; lia|]. split; [nia|].
    eapply Z.lt_le_trans; [eassumption|].
    eapply Z.le_trans; [|exact Hge2]. apply Z.pow_le_mono_r; lia.
Qed.

Lemma div_one_finite d :
  magnitude_ge false 1 d -> signed_finite false (div one d).
Proof.
  rewrite one_eq. unfold div.
  destruct d as [s|s| |s my ey]; try done.
  simpl magnitude_ge. intros [-> Hmag]. rewrite SFdiv_finite.
    pose proof (SFdiv_core_binary_bounds (Zpos 4503599627370496) (-52)
                  (Zpos my) ey ltac:(done) ltac:(done)) as (H1 & H2 & H3).
    change (Zdigits2 4503599627370496) with 53 in *.
    change (Zdigits2 (Zpos my)) with (Zpos (digits2_pos my)) in *.
  apply binary_round_aux_hi; [done|lia|lia].
Qed.

Lemma mul_zero_l delta : signed_finite false delta -> mul (of_Z 0) delta = zero.
Proof. destruct delta as [s|s| |s m e]; simpl; try done; by intros ->. Qed.

Lemma rmapM_ok {A B} (f : A -> result B) (g : A -> B) (l : list A) :
  (forall x, x ∈ l -> f x = Ok (g x)) -> rmapM f l = Ok (g <$> l).
Proof.
  induction l as [|x l IH]; intros Hf; [done|]. simpl.
  rewrite (Hf x) by left. simpl. rewrite IH; [done|].
  intros y Hy. apply Hf. by right.
Qed.

Lemma pow2_1023_pos : 0 < 2 ^ 1023.
Proof. done. Qed.

Lemma ladder_delta_ok N :
  2 <= N < 2 ^ 1023 ->
  exists delta, ladder_delta N = Ok delta /\ signed_finite false delta /\
    truediv one (sub (of_Z N) one) = Ok delta.
Proof.
  intros HN. pose proof pow2_1023_pos. unfold ladder_delta.
  rewrite of_int_ok by lia. simpl rbind.
  assert (magnitude_ge false 1 (sub (of_Z N) one)) as Hd.
  { eapply sub_one_lo; [apply of_Z_pos; lia|]. intros _.
    apply (Zdigits2_gt_of_le N 1); lia. }
  exists (div one (sub (of_Z N) one)). unfold truediv.
  rewrite (magnitude_ge_not_zero _ _ _ Hd).
  split; [done|]. split; [|done]. by apply div_one_finite.
Qed.

Lemma range_elem n i : i ∈ range n <-> 0 <= i < n.
Proof.
  unfold range. rewrite list_elem_of_fmap. split.
  - intros (k & -> & Hk). apply elem_of_seq in Hk. lia.
  - intros Hi. exists (Z.to_nat i). split; [lia|]. apply elem_of_seq. lia.
Qed.

Lemma init_ok N K ramp :
  2 <= N < 2 ^ 1023 ->
  exists delta,
    truediv one (sub (of_Z N) one) = Ok delta /\ signed_finite false delta /\
    __init__ N K ramp =
      Ok (mkRunner N K 1 ramp ((fun i => mul (of_Z i) delta) <$> range N)).
Proof.
  intros HN. destruct (ladder_delta_ok N HN) as (delta & Hd & Hfin & Hdiv).
  exists delta. split; [done|]. split; [done|].
  unfold __init__, _setup_alphas. simpl n_replicas. rewrite Hd. simpl rbind.
  rewrite (rmapM_ok _ (fun i => mul (of_Z i) delta)); [done|].
  intros i Hi%range_elem. unfold ladder_entry.
  rewrite of_int_ok; [done|]. pose proof pow2_1023_pos. lia.
Qed.

Lemma init_nonpositive N K ramp :
  - 2 ^ 1023 < N <= 0 -> __init__ N K ramp = Ok (mkRunner N K 1 ramp []).
Proof.
  intros HN. pose proof pow2_1023_pos.
  unfold __init__, _setup_alphas, ladder_delta. simpl n_replicas.
  rewrite of_int_ok by lia. simpl rbind.
  assert (is_zero (sub (of_Z N) one) = false) as Hz.
  { destruct (Z.eq_dec N 0) as [->|Hne]; [done|].
    eapply magnitude_ge_not_zero, (sub_one_lo true); [apply of_Z_neg; lia|done]. }
  unfold truediv. rewrite Hz. simpl rbind.
  unfold range. replace (Z.to_nat N) with 0%nat by lia. done.
Qed.

Lemma init_one K ramp : __init__ 1 K ramp = Raise ZeroDivisionError.
Proof. reflexivity. Qed.

Lemma init_inv N K ramp r :
  __init__ N K ramp = Ok r ->
  n_replicas r = N /\ max_steps r = K /\ step r = 1 /\ ramp_steps r = ramp.
Proof.
  unfold __init__, _setup_alphas. simpl n_replicas.
  destruct (ladder_delta N) as [delta|e]; [|discriminate]. simpl.
  destruct (rmapM _ _) as [a|e]; [|discriminate]. simpl.
  by intros [= <-].
Qed.

Lemma compute_ramp_weight_ramping me rs :
  ramp_steps me = Some rs -> 1 <= step me <= rs -> rs < 2 ^ 1023 - 1 ->
  _compute_ramp_weight me = Ok (div (of_Z (step me + 1)) (of_Z rs)).
Proof.
  intros Hrs Hstep Hlt. unfold _compute_ramp_weight. rewrite Hrs.
  destruct (Z.ltb_spec rs (step me)) as [?|_]; [lia|].
  rewrite !of_int_ok by lia. simpl rbind. unfold truediv.
  by rewrite (magnitude_ge_not_zero _ _ _ (of_Z_pos rs ltac:(lia))).
Qed.

Lemma compute_ramp_weight_ok me :
  1 <= step me ->
  match ramp_steps me with Some rs => rs < 2 ^ 1023 - 1 | None => True end ->
  exists w, _compute_ramp_weight me = Ok w.
Proof.
  intros Hstep Hramp. destruct (ramp_steps me) as [rs|] eqn:Hrs.
  - destruct (Z.lt_ge_cases rs (step me)) as [Hlt|Hge].
    + exists one. unfold _compute_ramp_weight. rewrite Hrs.
      by destruct (Z.ltb_spec rs (step me)) as [_|?]; [|lia].
    + eexists. apply compute_ramp_weight_ramping; [done|lia|done].
  - exists one. unfold _compute_ramp_weight. by rewrite Hrs.
Qed.

Lemma binary_round_aux_overflow sx m e l :
  0 < m -> 1025 <= Zdigits2 m + e ->
  binary_round_aux prec emax sx m e l = S754_infinity sx.
Proof.
  intros Hm Hmag.
  destruct (binary_round_aux_shift sx m e l ltac:(lia)) as (m2 & Hm2 & ->).
  destruct (shift_normal m e Hm ltac:(lia)) as (H1 & H2 & _ & _).
  assert (0 < m2) by lia.
  assert (Zdigits2 (shift m e).1 <= Zdigits2 m2)
    by (apply Zdigits2_mono; lia).
  destruct (shift_normal m2 (shift m e).2 ltac:(lia) ltac:(lia))
    as (H3 & H4 & H5 & _).
  destruct (shift m2 (shift m e).2) as [m3 e3]. simpl in *.
  destruct m3 as [|p|p]; try lia. simpl.
  destruct (Z.leb_spec e3 (emax - prec)) as [Hle|_]; [|done].
  unfold emax, prec in Hle. lia.
Qed.

Lemma binary_round_overflow sx mx :
  1025 <= Zdigits2 (Zpos mx) ->
  binary_round prec emax sx mx 0 = S754_infinity sx.
Proof.
  intros Hmag. unfold binary_round.
  pose proof (shl_align_mag mx 0 (fexp prec emax (Zpos (digits2_pos mx) + 0)))
    as [H1 _].
  destruct (shl_align mx 0 _) as [mz ez]. simpl in H1.
  apply binary_round_aux_overflow; [done|]. simpl in *. lia.
Qed.

Lemma of_int_overflow n :
  n <= - 2 ^ 1024 \/ 2 ^ 1024 <= n -> of_int n = Raise OverflowError.
Proof.
  intros Hn. unfold of_int, of_Z.
  assert (0 < 2 ^ 1024) by (apply Z.pow_pos_nonneg; lia).
  destruct n as [|p|p]; [lia| |]; simpl binary_normalize.
  - rewrite binary_round_overflow; [done|].
    apply (Zdigits2_gt_of_le (Zpos p) 1024); lia.
  - rewrite binary_round_overflow; [done|].
    apply (Zdigits2_gt_of_le (Zpos p) 1024); lia.
Qed.

End FloatOps.

(** ** The exchange permutation *)

Section PermuteProps.
Context {Positions Extra : Type}.
Abbreviation state := (@SystemState Positions Extra).
Abbreviation heap := (gmap loc state).
Implicit Types (h : heap) (states : list loc) (P : list Z).

Lemma bind_ok {St A B} (m : prog St A) (k : A -> prog St B) s a s' :
  m s = (Ok a, s') -> bind m k s = k a s'.
Proof. intros H. unfold bind. by rewrite H. Qed.

Lemma bind_raise {St A B} (m : prog St A) (k : A -> prog St B) s e s' :
  m s = (Raise e, s') -> bind m k s = (Raise e, s').
Proof. intros H. unfold bind. by rewrite H. Qed.

Lemma py_index_ok {A} (l : list A) (i : Z) (x : A) :
  0 <= i -> l !! Z.to_nat i = Some x -> py_index l i = Ok x.
Proof.
  intros Hi Hx. unfold py_index.
  destruct (Z.ltb_spec i 0) as [?|_]; [lia|].
  destruct (Z.ltb_spec i 0) as [?|_]; [lia|].
  by rewrite Hx.
Qed.

Lemma py_index_nat {A} (l : list A) (i : nat) (x : A) :
  l !! i = Some x -> py_index l (Z.of_nat i) = Ok x.
Proof. intros Hx. apply py_index_ok; [lia|]. by rewrite Nat2Z.id. Qed.

Lemma mapM_getattr {A} (f : state -> A) states h :
  Forall (fun l => is_Some (h !! l)) states ->
  exists vs, mapM (getattr f) states h = (Ok vs, h) /\
    length vs = length states /\
    forall i l s, states !! i = Some l -> h !! l = Some s -> vs !! i = Some (f s).
Proof.
  induction 1 as [|l states [s Hs] _ (vs & Hvs & Hlen & Hnth)]; simpl.
  - exists []. split; [done|]. split; [done|]. intros i l s Hl. by destruct i.
  - exists (f s :: vs). split.
    + erewrite bind_ok; [|unfold getattr; by rewrite Hs].
      erewrite bind_ok; [|exact Hvs]. done.
    + split; [simpl; by rewrite Hlen|].
      intros [|i] l' s' Hl' Hs'; simpl in *.
      * by simplify_eq.
      * eauto.
Qed.

Lemma permute_loop states (oc : list Positions) (oe : list float) P i h :
  NoDup states ->
  (i + length P <= length states)%nat ->
  Forall (fun p => 0 <= p < Z.of_nat (length states)) P ->
  length oc = length states ->
  length oe = length states ->
  exists h',
    for_enumerate (permute_body states oc oe) i P h = (Ok tt, h') /\
    (forall k p l c e,
        P !! k = Some p -> states !! (i + k)%nat = Some l ->
        oc !! Z.to_nat p = Some c -> oe !! Z.to_nat p = Some e ->
        h' !! l = (fun s => mkState c e (extra s)) <$> h !! l) /\
    (forall l, (forall k, (k < length P)%nat -> states !! (i + k)%nat ≠ Some l) ->
        h' !! l = h !! l).
Proof.
  intros Hnd. revert i h.
  induction P as [|p P IH]; intros i h Hlen Hrange Hoc Hoe; simpl.
  - exists h. split; [done|]. split; [|done]. intros k ? ? ? ? Hk. by destruct k.
  - apply Forall_cons in Hrange as [Hp Hrange]. simpl in Hlen.
    assert (is_Some (oc !! Z.to_nat p)) as [c Hc] by (apply lookup_lt_is_Some_2; lia).
    assert (is_Some (oe !! Z.to_nat p)) as [e He] by (apply lookup_lt_is_Some_2; lia).
    assert (is_Some (states !! i)) as [l Hl] by (apply lookup_lt_is_Some_2; lia).
    set (h1 := alter (set_energy e) l (alter (set_positions c) l h)).
    destruct (IH (S i) h1 ltac:(lia) Hrange Hoc Hoe) as (h' & Hrun & Hslot & Hframe).
    exists h'. split; [|split].
    + unfold permute_body.
      erewrite bind_ok; [exact Hrun|].
      unfold bind, lift.
      rewrite (py_index_ok _ _ c), (py_index_nat _ _ l), (py_index_ok _ _ e);
        [done|lia|done..|lia|done].
    + intros [|k] p' l' c' e' Hp' Hl' Hc' He'; simpl in *.
      * rewrite Nat.add_0_r in Hl'. simplify_eq.
        rewrite Hframe.
        -- unfold h1. rewrite !lookup_alter_eq. by destruct (h !! l).
        -- intros k Hk Hk'. 
           assert (i = (S i + k)%nat); [|lia].
           eapply NoDup_lookup; eauto.
      * rewrite (Hslot k p' l' c' e'); [|done| |done..].
        2:{ by replace (S (i + k))%nat with (i + S k)%nat by lia. }
        unfold h1. rewrite !lookup_alter_ne; [done|..];
        intros ->; assert (i = (i + S k)%nat) by (eapply NoDup_lookup; eauto); lia.
    + intros l' Hl'. rewrite Hframe.
      * assert (l ≠ l').
        { intros ->. apply (Hl' 0%nat); [lia|]. by rewrite Nat.add_0_r. }
        unfold h1. by rewrite !lookup_alter_ne.
      * intros k Hk. replace (S i + k)%nat with (i + S k)%nat by lia.
        apply Hl'. lia.
Qed.


Lemma permute_states_spec h states P :
  NoDup states ->
  Forall (fun l => is_Some (h !! l)) states ->
  (length P <= length states)%nat ->
  Forall (fun p => 0 <= p < Z.of_nat (length states)) P ->
  exists h',
    _permute_states P states h = (Ok states, h') /\
    (forall i p l l0 s s0,
        P !! i = Some p -> states !! i = Some l ->
        states !! Z.to_nat p = Some l0 ->
        h !! l = Some s -> h !! l0 = Some s0 ->
        h' !! l = Some (mkState (positions s0) (energy s0) (extra s))) /\
    (forall l, (forall i, (i < length P)%nat -> states !! i ≠ Some l) ->
        h' !! l = h !! l).
Proof.
  intros Hnd Halloc Hlen Hrange.
  destruct (mapM_getattr positions states h Halloc) as (oc & Hoc & Hloc & Hnoc).
  destruct (mapM_getattr energy states h Halloc) as (oe & Hoe & Hloe & Hnoe).
  destruct (permute_loop states oc oe P 0 h Hnd ltac:(lia) Hrange Hloc Hloe)
    as (h' & Hrun & Hslot & Hframe).
  exists h'. split; [|split].
  - unfold _permute_states, bind. by rewrite Hoc, Hoe, Hrun.
  - intros i p l l0 s s0 Hp Hl Hl0 Hs Hs0.
    rewrite (Hslot i p l (positions s0) (energy s0)); eauto.
    by rewrite Hs.
  - intros l Hl. by apply Hframe.
Qed.

Lemma range_length n : length (range n) = Z.to_nat n.
Proof. unfold range. by rewrite length_fmap, length_seq. Qed.

Lemma range_lookup n (i : nat) :
  (i < Z.to_nat n)%nat -> range n !! i = Some (Z.of_nat i).
Proof.
  intros Hi. unfold range. rewrite list_lookup_fmap, lookup_seq_lt; done.
Qed.

Lemma range_bounds n p : p ∈ range n -> 0 <= p < n.
Proof.
  unfold range. intros (i & -> & Hi)%list_elem_of_fmap.
  apply elem_of_seq in Hi. lia.
Qed.

Lemma inverse_permutation_length P :
  length (inverse_permutation P) = length P.
Proof.
  unfold inverse_permutation. by rewrite length_fmap, range_length, Nat2Z.id.
Qed.

Lemma inverse_permutation_lookup P (i : nat) :
  P ≡ₚ range (Z.of_nat (length P)) ->
  (i < length P)%nat ->
  exists q, inverse_permutation P !! i = Some q /\
    0 <= q < Z.of_nat (length P) /\ P !! Z.to_nat q = Some (Z.of_nat i).
Proof.
  intros Hperm Hi.
  assert (Z.of_nat i ∈ P) as Hin.
  { rewrite Hperm. apply list_elem_of_lookup. exists i.
    apply range_lookup. lia. }
  destruct (list_find_elem_of (fun p => p = Z.of_nat i) P _ Hin eq_refl)
    as [[j y] Hfind].
  exists (Z.of_nat j).
  pose proof Hfind as (Hj & -> & _)%list_find_Some.
  split; [|split].
  - unfold inverse_permutation. rewrite list_lookup_fmap, range_lookup by lia.
    simpl. unfold index_of. by rewrite Hfind.
  - apply lookup_lt_Some in Hj. lia.
  - by rewrite Nat2Z.id.
Qed.

Lemma permutation_bounds P :
  P ≡ₚ range (Z.of_nat (length P)) ->
  Forall (fun p => 0 <= p < Z.of_nat (length P)) P.
Proof.
  intros Hperm. apply Forall_forall. intros p Hp.
  rewrite Hperm in Hp. by apply range_bounds.
Qed.


Lemma slot_Some h states i s :
  slot h states i = Some s <-> exists l, states !! i = Some l /\ h !! l = Some s.
Proof.
  unfold slot. split.
  - destruct (states !! i) as [l|]; [eauto|discriminate].
  - intros (l & -> & Hl). exact Hl.
Qed.

(** C6: for a list of N distinct states and a permutation vector [P] of
    length N with entries in 0..N-1, [_permute_states] returns normally
    and leaves in slot [i] exactly the positions and the energy that
    slot [P[i]] held before the call, for every [i]. *)
Theorem permute_states_slots h states P :
  NoDup states ->
  Forall (fun l => is_Some (h !! l)) states ->
  length P = length states ->
  Forall (fun p => 0 <= p < Z.of_nat (length states)) P ->
  exists h',
    _permute_states P states h = (Ok states, h') /\
    forall i p, P !! i = Some p ->
      exists s s0,
        slot h' states i = Some s /\ slot h states (Z.to_nat p) = Some s0 /\
        positions s = positions s0 /\ energy s = energy s0.
Proof.
  intros Hnd Halloc Hlen Hrange.
  destruct (permute_states_spec h states P Hnd Halloc ltac:(lia) Hrange)
    as (h' & Hrun & Hslot & _).
  exists h'. split; [done|]. intros i p Hp.
  assert (is_Some (states !! i)) as [l Hl].
  { apply lookup_lt_is_Some_2. rewrite <- Hlen. by eapply lookup_lt_Some. }
  assert (is_Some (states !! Z.to_nat p)) as [l0 Hl0].
  { apply lookup_lt_is_Some_2.
    pose proof (proj1 (Forall_lookup _ _) Hrange i p Hp). simpl in *. lia. }
  destruct (proj1 (Forall_lookup _ _) Halloc i l Hl) as [s Hs].
  destruct (proj1 (Forall_lookup _ _) Halloc _ l0 Hl0) as [s0 Hs0].
  eexists _, s0. split; [|split; [|split]].
  - apply slot_Some. exists l. split; [done|]. by eapply Hslot.
  - apply slot_Some. eauto.
  - done.
  - done.
Qed.

Lemma permute_states_alloc h h' states P :
  (forall i p l l0 s s0,
        P !! i = Some p -> states !! i = Some l ->
        states !! Z.to_nat p = Some l0 ->
        h !! l = Some s -> h !! l0 = Some s0 ->
        h' !! l = Some (mkState (positions s0) (energy s0) (extra s))) ->
  (forall l, (forall i, (i < length P)%nat -> states !! i ≠ Some l) ->
        h' !! l = h !! l) ->
  Forall (fun l => is_Some (h !! l)) states ->
  length P = length states ->
  Forall (fun p => 0 <= p < Z.of_nat (length states)) P ->
  Forall (fun l => is_Some (h' !! l)) states.
Proof.
  intros Hslot Hframe Halloc Hlen Hrange.
  apply Forall_lookup. intros i l Hl.
  assert (is_Some (P !! i)) as [p Hp].
  { apply lookup_lt_is_Some_2. rewrite Hlen. by eapply lookup_lt_Some. }
  assert (is_Some (states !! Z.to_nat p)) as [l0 Hl0].
  { apply lookup_lt_is_Some_2.
    pose proof (proj1 (Forall_lookup _ _) Hrange i p Hp). simpl in *. lia. }
  destruct (proj1 (Forall_lookup _ _) Halloc i l Hl) as [s Hs].
  destruct (proj1 (Forall_lookup _ _) Halloc _ l0 Hl0) as [s0 Hs0].
  erewrite Hslot; eauto.
Qed.

(** C5: applying the identity permutation leaves every state, and the
    whole heap, as it was; and for every bijection [P] over 0..N-1,
    applying [P] and then its inverse restores the positions and the
    energy of every state (the heap is back to what it was). *)
Theorem permute_states_round_trip h states :
  NoDup states ->
  Forall (fun l => is_Some (h !! l)) states ->
  _permute_states (range (Z.of_nat (length states))) states h = (Ok states, h) /\
  forall P,
    length P = length states ->
    P ≡ₚ range (Z.of_nat (length states)) ->
    exists h1,
      _permute_states P states h = (Ok states, h1) /\
      _permute_states (inverse_permutation P) states h1 = (Ok states, h).
Proof.
  intros Hnd Halloc. split.
  - set (N := length states).
    assert (length (range (Z.of_nat N)) = N) as Hlen
      by (by rewrite range_length, Nat2Z.id).
    destruct (permute_states_spec h states (range (Z.of_nat N)) Hnd Halloc)
      as (h' & Hrun & Hslot & Hframe).
    { lia. }
    { apply Forall_forall. intros p Hp. by apply range_bounds. }
    rewrite Hrun. f_equal. apply map_eq. intros l.
    destruct (decide (l ∈ states)) as [Hin|Hnin].
    + apply list_elem_of_lookup in Hin as [i Hi].
      pose proof (lookup_lt_Some _ _ _ Hi) as Hlt.
      destruct (proj1 (Forall_lookup _ _) Halloc i l Hi) as [s Hs].
      rewrite (Hslot i (Z.of_nat i) l l s s); try done.
      * rewrite Hs. by destruct s.
      * apply range_lookup. fold N. lia.
      * by rewrite Nat2Z.id.
    + apply Hframe. intros i _ Hi. apply Hnin.
      apply list_elem_of_lookup. eauto.
  - intros P Hlen Hperm. rewrite <- Hlen in Hperm.
    pose proof (permutation_bounds P Hperm) as Hrange. rewrite Hlen in Hrange.
    destruct (permute_states_spec h states P Hnd Halloc ltac:(lia) Hrange)
      as (h1 & Hrun1 & Hslot1 & Hframe1).
    exists h1. split; [done|].
    pose proof (permute_states_alloc h h1 states P Hslot1 Hframe1 Halloc Hlen Hrange)
      as Halloc1.
    set (Q := inverse_permutation P).
    assert (length Q = length states) as HlenQ
      by (unfold Q; by rewrite inverse_permutation_length).
    assert (Forall (fun q => 0 <= q < Z.of_nat (length states)) Q) as HrangeQ.
    { apply Forall_lookup. intros i q Hq.
      destruct (inverse_permutation_lookup P i Hperm) as (q' & Hq' & Hb & _).
      { apply lookup_lt_Some in Hq. lia. }
      unfold Q in Hq. simplify_eq. lia. }
    destruct (permute_states_spec h1 states Q Hnd Halloc1 ltac:(lia) HrangeQ)
      as (h2 & Hrun2 & Hslot2 & Hframe2).
    rewrite Hrun2. f_equal. apply map_eq. intros l.
    destruct (decide (l ∈ states)) as [Hin|Hnin].
    + apply list_elem_of_lookup in Hin as [i Hi].
      pose proof (lookup_lt_Some _ _ _ Hi) as Hlt.
      destruct (inverse_permutation_lookup P i Hperm ltac:(lia))
        as (q & Hq & Hqb & HPq).
      assert (is_Some (states !! Z.to_nat q)) as [lq Hlq]
        by (apply lookup_lt_is_Some_2; lia).
      destruct (proj1 (Forall_lookup _ _) Halloc i l Hi) as [s Hs].
      destruct (proj1 (Forall_lookup _ _) Halloc _ lq Hlq) as [sq Hsq].
      assert (is_Some (P !! i)) as [p Hp] by (apply lookup_lt_is_Some_2; lia).
      assert (is_Some (states !! Z.to_nat p)) as [lp Hlp].
      { apply lookup_lt_is_Some_2.
        pose proof (proj1 (Forall_lookup _ _) Hrange i p Hp). simpl in *. lia. }
      destruct (proj1 (Forall_lookup _ _) Halloc _ lp Hlp) as [sp Hsp].
      pose proof (Hslot1 i p l lp s sp Hp Hi Hlp Hs Hsp) as H1l.
      assert (h1 !! lq = Some (mkState (positions s) (energy s) (extra sq))) as H1q.
      { apply (Hslot1 (Z.to_nat q) (Z.of_nat i) lq l sq s);
          [done|done|by rewrite Nat2Z.id|done|done]. }
      rewrite (Hslot2 i q l lq _ _ Hq Hi Hlq H1l H1q). simpl.
      rewrite Hs. by destruct s.
    + rewrite Hframe2, Hframe1; [done|..];
        intros i _ Hi; apply Hnin; apply list_elem_of_lookup; eauto.
Qed.

End PermuteProps.

(** ** The run loop *)

Lemma bind_inv_ok {St A B} (m : prog St A) (k : A -> prog St B) s b s' :
  bind m k s = (Ok b, s') ->
  exists a s1, m s = (Ok a, s1) /\ k a s1 = (Ok b, s').
Proof.
  unfold bind. destruct (m s) as [[a|e] s1]; [eauto|discriminate].
Qed.

Section RunProps.
Context {Positions Extra Energies AccProbs World : Type}.
Abbreviation state := (@SystemState Positions Extra).
Abbreviation heap := (gmap loc state).
Abbreviation machine := (@machine Positions Extra Energies AccProbs World).
Abbreviation memory := (@memory Positions Extra World).
Abbreviation entry := (@entry Energies AccProbs).
Abbreviation Collaborators := (@Collaborators Positions Extra Energies AccProbs World).
Variable env : Collaborators.
Implicit Types (s : machine) (states : list loc) (tr : list entry).

Lemma call_inv_ok {A} ev (m : method A) s a s1 :
  call ev m s = (Ok a, s1) ->
  exists mem', m (mem s) = (Ok a, mem') /\
    s1 = mkMachine (self s) mem' (trace s ++ [mkEntry (step (self s)) ev]).
Proof.
  unfold call. simpl. destruct (m (mem s)) as [r mem'].
  intros [= -> <-]. eauto.
Qed.

Lemma compute_energies_inv_ok states s es s1 :
  _compute_energies env states s = (Ok es, s1) ->
  exists mem',
    s1 = mkMachine (self s) mem'
           (trace s ++ ((fun l => mkEntry (step (self s)) (Get_energy l)) <$> states)).
Proof.
  unfold _compute_energies. revert s es s1.
  induction states as [|l states IH]; intros s es s1 H; simpl in *.
  - injection H as <- <-. exists (mem s). rewrite app_nil_r. by destruct s.
  - apply bind_inv_ok in H as (e & s2 & Hc & H).
    apply bind_inv_ok in H as (es' & s3 & Hrec & H).
    injection H as <- <-.
    apply call_inv_ok in Hc as (mem' & _ & ->).
    apply IH in Hrec as [mem'' ->]. simpl. exists mem''.
    by rewrite <- app_assoc.
Qed.

Lemma get_self_inv s (a : Runner) s1 :
  get_self s = (Ok a, s1) -> a = self s /\ s1 = s.
Proof. by intros [= <- <-]. Qed.

Lemma log_info_inv msg s a s1 :
  log_info msg s = (Ok a, s1) -> s1 = record (Log_info msg) s.
Proof. by intros [= <-]. Qed.

Lemma update_self_inv f s a s1 :
  update_self f s = (Ok a, s1) -> s1 = mkMachine (f (self s)) (mem s) (trace s).
Proof. by intros [= <-]. Qed.

Lemma lift_inv {A} (r : result A) s a s1 :
  lift r s = (Ok a, s1) -> r = Ok a /\ s1 = s.
Proof. by intros [= -> <-]. Qed.

Lemma on_heap_inv {A} (p : prog heap A) s a s1 :
  on_heap p s = (Ok a, s1) ->
  exists h', p (objs (mem s)) = (Ok a, h') /\
    s1 = mkMachine (self s) (mkMemory h' (world (mem s))) (trace s).
Proof.
  unfold on_heap. destruct (p (objs (mem s))) as [r h'].
  intros [= -> <-]. eauto.
Qed.

Lemma ret_inv {St A} (a b : A) (s s' : St) :
  ret a s = (Ok b, s') -> b = a /\ s' = s.
Proof. by intros [= -> ->]. Qed.

Lemma permute_states_inv_ok (P : list Z) states (h : heap) r h' :
  _permute_states P states h = (Ok r, h') -> r = states.
Proof.
  unfold _permute_states. intros H.
  apply bind_inv_ok in H as (? & ? & _ & H).
  apply bind_inv_ok in H as (? & ? & _ & H).
  apply bind_inv_ok in H as (? & ? & _ & H).
  by apply ret_inv in H as [-> _].
Qed.

Ltac inv_prim H1 :=
  first
    [ apply call_inv_ok in H1 as (? & H1 & ->)
    | apply get_self_inv in H1 as [-> ->]
    | apply log_info_inv in H1 as ->
    | apply update_self_inv in H1 as ->
    | apply lift_inv in H1 as [H1 ->]
    | apply on_heap_inv in H1 as (? & H1 & ->)
    | apply compute_energies_inv_ok in H1 as (? & ->)
    | idtac ];
  cbn [self mem trace objs world record step max_steps alphas set_alphas set_step] in *.

Tactic Notation "inv_bind" hyp(H) "as" ident(a) :=
  let s1 := fresh "s" in
  let H1 := fresh "Hcall" in
  apply bind_inv_ok in H as (a & s1 & H1 & H); inv_prim H1.

Tactic Notation "inv_bind" hyp(H) :=
  let a := fresh "u" in inv_bind H as a.

Lemma run_step_inv_ok states s r s' :
  run_step env states s = (Ok r, s') ->
  exists w a my_state my_state' gathered my_energies energies pv state0 ap,
    _compute_ramp_weight (self s) = Ok w /\
    self s' = set_step (step (self s) + 1) (set_alphas a (self s)) /\
    trace s' = trace s ++
      step_entries (self s) states w a my_state my_state' gathered
        my_energies energies pv r state0 ap.
Proof.
  unfold run_step. intros H.
  inv_bind H as me. inv_bind H. inv_bind H as w. inv_bind H.
  inv_bind H as a. inv_bind H. inv_bind H. inv_bind H.
  inv_bind H as my_state. inv_bind H.
  inv_bind H as my_state'.
  assert (exists mem1,
    s0 = mkMachine (set_alphas a (self s)) mem1
      (trace s ++
        [mkEntry (step (self s))
           (Log_info (Msg_running_step (step (self s)) (max_steps (self s))));
         mkEntry (step (self s)) (Set_alpha PyFloat.zero w);
         mkEntry (step (self s)) (Adapt (alphas (self s)) (step (self s)));
         mkEntry (step (self s)) (Broadcast_alphas_to_slaves a);
         mkEntry (step (self s)) Barrier;
         mkEntry (step (self s)) (Broadcast_states_to_slaves states);
         mkEntry (step (self s)) Barrier;
         mkEntry (step (self s))
           (Log_info (if step (self s) =? 1 then Msg_first_step else Msg_running_md));
         mkEntry (step (self s))
           (if step (self s) =? 1 then Minimize_then_run my_state
            else Run_dynamics my_state)])) as [mem1 ->].
  { destruct (step (self s) =? 1);
      inv_bind Hcall6; apply call_inv_ok in Hcall6 as (mem1 & _ & ->);
      exists mem1; cbn [self mem trace record step set_alphas];
      by rewrite <- !app_assoc. }
  clear Hcall6.
  cbn [self mem trace objs world record step max_steps alphas set_alphas set_step] in *.
  inv_bind H as gathered. inv_bind H. inv_bind H. inv_bind H.
  inv_bind H as my_energies. inv_bind H as energies. inv_bind H.
  inv_bind H as pv. inv_bind H as states'. inv_bind H as states''. inv_bind H.
  inv_bind H as state0. inv_bind H. inv_bind H. inv_bind H. inv_bind H.
  inv_bind H as ap. inv_bind H. inv_bind H. inv_bind H. inv_bind H as me'.
  inv_bind H. inv_bind H.
  apply ret_inv in H as [-> ->].
  match goal with
  | Hp : _permute_states _ _ _ = _ |- _ => apply permute_states_inv_ok in Hp as ->
  end.
  exists w, a, my_state, my_state', gathered, my_energies, energies, pv, state0, ap.
  split; [assumption|]. split; [reflexivity|].
  cbn [trace]. unfold step_entries. rewrite Z.add_simpl_r.
  cbn [step max_steps alphas set_alphas set_step].
  rewrite <- !app_assoc. reflexivity.
Qed.

Lemma run_step_inv_returns states s r s' :
  run_step env states s = (Ok r, s') ->
  exists w a my_state my_state' gathered my_energies energies pv state0 ap,
    _compute_ramp_weight (self s) = Ok w /\
    returned_by (adapt env (alphas (self s)) (step (self s))) a /\
    returned_by (gather_energies_from_slaves env my_energies) energies /\
    self s' = set_step (step (self s) + 1) (set_alphas a (self s)) /\
    trace s' = trace s ++
      step_entries (self s) states w a my_state my_state' gathered
        my_energies energies pv r state0 ap.
Proof.
  unfold run_step. intros H.
  inv_bind H as me. inv_bind H. inv_bind H as w. inv_bind H.
  inv_bind H as a.
  assert (returned_by (adapt env (alphas (self s)) (step (self s))) a) as Hadapt
    by (eexists _, _; eassumption).
  inv_bind H. inv_bind H. inv_bind H.
  inv_bind H as my_state. inv_bind H.
  inv_bind H as my_state'.
  assert (exists mem1,
    s0 = mkMachine (set_alphas a (self s)) mem1
      (trace s ++
        [mkEntry (step (self s))
           (Log_info (Msg_running_step (step (self s)) (max_steps (self s))));
         mkEntry (step (self s)) (Set_alpha PyFloat.zero w);
         mkEntry (step (self s)) (Adapt (alphas (self s)) (step (self s)));
         mkEntry (step (self s)) (Broadcast_alphas_to_slaves a);
         mkEntry (step (self s)) Barrier;
         mkEntry (step (self s)) (Broadcast_states_to_slaves states);
         mkEntry (step (self s)) Barrier;
         mkEntry (step (self s))
           (Log_info (if step (self s) =? 1 then Msg_first_step else Msg_running_md));
         mkEntry (step (self s))
           (if step (self s) =? 1 then Minimize_then_run my_state
            else Run_dynamics my_state)])) as [mem1 ->].
  { destruct (step (self s) =? 1);
      inv_bind Hcall6; apply call_inv_ok in Hcall6 as (mem1 & _ & ->);
      exists mem1; cbn [self mem trace record step set_alphas];
      by rewrite <- !app_assoc. }
  clear Hcall6.
  cbn [self mem trace objs world record step max_steps alphas set_alphas set_step] in *.
  inv_bind H as gathered. inv_bind H. inv_bind H. inv_bind H.
  inv_bind H as my_energies. inv_bind H as energies.
  assert (returned_by (gather_energies_from_slaves env my_energies) energies)
    as Hgather by (eexists _, _; eassumption).
  inv_bind H.
  inv_bind H as pv. inv_bind H as states'. inv_bind H as states''. inv_bind H.
  inv_bind H as state0. inv_bind H. inv_bind H. inv_bind H. inv_bind H.
  inv_bind H as ap. inv_bind H. inv_bind H. inv_bind H. inv_bind H as me'.
  inv_bind H. inv_bind H.
  apply ret_inv in H as [-> ->].
  match goal with
  | Hp : _permute_states _ _ _ = _ |- _ => apply permute_states_inv_ok in Hp as ->
  end.
  exists w, a, my_state, my_state', gathered, my_energies, energies, pv, state0, ap.
  split; [assumption|]. split; [exact Hadapt|]. split; [exact Hgather|].
  split; [reflexivity|].
  cbn [trace]. unfold step_entries. rewrite Z.add_simpl_r.
  cbn [step max_steps alphas set_alphas set_step].
  rewrite <- !app_assoc. reflexivity.
Qed.

End RunProps.

Section RunViews.
Context {Positions Extra Energies AccProbs World : Type}.
Abbreviation state := (@SystemState Positions Extra).
Abbreviation heap := (gmap loc state).
Abbreviation machine := (@machine Positions Extra Energies AccProbs World).
Abbreviation memory := (@memory Positions Extra World).
Abbreviation entry := (@entry Energies AccProbs).
Abbreviation event := (@event Energies AccProbs).
Abbreviation Collaborators := (@Collaborators Positions Extra Energies AccProbs World).
Variable env : Collaborators.
Implicit Types (s : machine) (states : list loc) (tr : list entry).

Lemma omap_get_energy {B} (g : entry -> option B) k states :
  (forall l, g (mkEntry k (Get_energy l)) = None) ->
  omap g ((fun l => mkEntry k (Get_energy l)) <$> states) = [].
Proof.
  intros Hg. induction states as [|l states IH]; [done|].
  simpl. rewrite Hg. exact IH.
Qed.

Lemma run_loop_view {B} (g : entry -> option B) (view : Z -> list B) K ramp :
  (forall me states w a ms ms' gathered es en pv r l0 ap,
      max_steps me = K -> ramp_steps me = ramp ->
      _compute_ramp_weight me = Ok w ->
      omap g (step_entries me states w a ms ms' gathered es en pv r l0 ap)
      = view (step me)) ->
  forall fuel states s s',
    max_steps (self s) = K -> ramp_steps (self s) = ramp ->
    run_loop env fuel states s = Some (Ok tt, s') ->
    omap g (trace s') =
      omap g (trace s) ++ flat_map view (seqZ (step (self s)) (K + 1 - step (self s))) /\
    step (self s') = Z.max (step (self s)) (K + 1) /\
    max_steps (self s') = K /\ ramp_steps (self s') = ramp /\
    n_replicas (self s') = n_replicas (self s).
Proof.
  intros Hview. induction fuel as [|fuel IH]; intros states s s' HK Hramp Hrun.
  - discriminate.
  - simpl in Hrun. rewrite HK in Hrun.
    destruct (Z.leb_spec (step (self s)) K) as [Hle|Hgt].
    + destruct (run_step env states s) as [[r|e] s1] eqn:Hstep; [|discriminate].
      apply run_step_inv_ok in Hstep
        as (w & a & ms & ms' & gathered & es & en & pv & l0 & ap & Hw & Hself & Htr).
      apply IH in Hrun as (Hv & Hs & Hm & Hr & Hn).
      2,3: by rewrite Hself.
      rewrite Hself in Hv, Hs, Hn. cbn [step set_step n_replicas set_alphas] in *.
      split; [|split; [|split; [|split]]]; try done; [|lia].
      rewrite Hv, Htr, omap_app, (Hview _ _ _ _ _ _ _ _ _ _ _ _ _ HK Hramp Hw).
      rewrite <- app_assoc. f_equal.
      rewrite (seqZ_cons (step (self s))) by lia. simpl. do 3 f_equal; lia.
    + injection Hrun as <-. rewrite seqZ_nil by lia. simpl.
      rewrite app_nil_r. repeat split; try done. lia.
Qed.


Lemma py_assert_inv (b : bool) s (u : unit) s1 :
  py_assert b s = (Ok u, s1) -> b = true /\ s1 = s.
Proof.
  unfold py_assert. destruct b; [|discriminate].
  intros H. apply ret_inv in H as [_ ->]. done.
Qed.

Lemma read_world_inv {A} (f : World -> A) s a s1 :
  read_world f s = (Ok a, s1) -> a = f (world (mem s)) /\ s1 = s.
Proof. by intros [= <- <-]. Qed.

Lemma run_setup_inv_ok s states s0 :
  run_setup env s = (Ok states, s0) ->
  n_replicas (self s) = comm_n_replicas env (world (mem s)) /\
  n_replicas (self s) = store_n_replicas env (world (mem s)) /\
  self s0 = self s /\
  trace s0 = trace s ++
    [mkEntry (step (self s)) (Log_info Msg_beginning);
     mkEntry (step (self s)) (Load_states (step (self s) - 1))].
Proof.
  unfold run_setup. intros H.
  apply bind_inv_ok in H as (? & ? & Hlog & H). apply log_info_inv in Hlog as ->.
  apply bind_inv_ok in H as (me & ? & Hme & H). apply get_self_inv in Hme as [-> ->].
  apply bind_inv_ok in H as (cn & ? & Hcn & H). apply read_world_inv in Hcn as [-> ->].
  apply bind_inv_ok in H as (? & ? & Ha & H). apply py_assert_inv in Ha as [Ha ->].
  apply bind_inv_ok in H as (sn & ? & Hsn & H). apply read_world_inv in Hsn as [-> ->].
  apply bind_inv_ok in H as (? & ? & Hb & H). apply py_assert_inv in Hb as [Hb ->].
  apply call_inv_ok in H as (mem' & _ & ->).
  cbn [self mem trace record world] in *.
  apply Z.eqb_eq in Ha, Hb. repeat split; try done.
  by rewrite <- app_assoc.
Qed.

Lemma run_view {B} (g : entry -> option B) (view : Z -> list B) K ramp :
  (forall me states w a ms ms' gathered es en pv r l0 ap,
      max_steps me = K -> ramp_steps me = ramp ->
      _compute_ramp_weight me = Ok w ->
      omap g (step_entries me states w a ms ms' gathered es en pv r l0 ap)
      = view (step me)) ->
  forall fuel s s',
    max_steps (self s) = K -> ramp_steps (self s) = ramp ->
    run env fuel s = Some (Ok tt, s') ->
    omap g (trace s') =
      omap g (trace s ++
        [mkEntry (step (self s)) (Log_info Msg_beginning);
         mkEntry (step (self s)) (Load_states (step (self s) - 1))]) ++
      flat_map view (seqZ (step (self s)) (K + 1 - step (self s))) ++
      omap g [mkEntry (Z.max (step (self s)) (K + 1)) (Log_info (Msg_finished K))] /\
    step (self s') = Z.max (step (self s)) (K + 1) /\
    n_replicas (self s) = comm_n_replicas env (world (mem s)) /\
    n_replicas (self s) = store_n_replicas env (world (mem s)).
Proof.
  intros Hview fuel s s' HK Hramp Hrun. unfold run in Hrun.
  destruct (run_setup env s) as [[states|e] s0] eqn:Hsetup; [|discriminate].
  apply run_setup_inv_ok in Hsetup as (Hc & Hs & Hself & Htr).
  destruct (run_loop env fuel states s0) as [[[[]|e] s1]|] eqn:Hloop;
    [|discriminate..].
  injection Hrun as <-.
  eapply (run_loop_view g view K ramp Hview) in Hloop
    as (Hv & Hstep & Hmax & _ & _); [|by rewrite Hself..].
  rewrite Hself in Hv, Hstep.
  cbn [self trace record log_info snd]. split; [|done].
  rewrite omap_app, Hv, Htr, Hmax, Hstep. by rewrite <- app_assoc.
Qed.


Ltac step_view :=
  intros; unfold step_entries, select;
  rewrite !omap_app, omap_get_energy by done;
  cbn [omap list_omap app what counter];
  try (destruct (_ =? 1)); reflexivity.

Lemma step_view_tag (f : event -> option Z)
    me states w a ms ms' gathered es (en : Energies) pv r l0 (ap : AccProbs) :
  f = iteration_of \/ f = save_states_of \/ f = append_traj_of \/
  f = save_alphas_of \/ f = save_permutation_vector_of \/
  f = save_energy_matrix_of \/ f = save_acceptance_probabilities_of ->
  omap (fun e => f (what e))
    (step_entries me states w a ms ms' gathered es en pv r l0 ap) = [step me].
Proof.
  intros [->|[->|[->|[->|[->|[->| ->]]]]]]; step_view.
Qed.

Lemma step_view_pickled
    me states w a ms ms' gathered es (en : Energies) pv r l0 (ap : AccProbs) :
  omap (fun e => step <$> save_remd_runner_of (what e))
    (step_entries me states w a ms ms' gathered es en pv r l0 ap) = [step me + 1].
Proof. step_view. Qed.

Lemma step_view_set_alpha
    me states w a ms ms' gathered es (en : Energies) pv r l0 (ap : AccProbs) :
  omap (fun e => set_alpha_of (what e))
    (step_entries me states w a ms ms' gathered es en pv r l0 ap)
  = [(PyFloat.zero, w)].
Proof. step_view. Qed.

Lemma step_view_checkpoint
    me states w a ms ms' gathered es (en : Energies) pv r l0 (ap : AccProbs) :
  omap checkpoint_of
    (step_entries me states w a ms ms' gathered es en pv r l0 ap)
  = checkpoint_of_step (step me).
Proof. unfold checkpoint_of. step_view. Qed.

Lemma flat_map_singleton {A B} (f : A -> B) (l : list A) :
  flat_map (fun x => [f x]) l = f <$> l.
Proof. induction l as [|x l IH]; [done|]. simpl. by rewrite IH. Qed.

End RunViews.

(** ** What every run does, whether it completes or raises *)

Section RunInvariants.
Context {Positions Extra Energies AccProbs World : Type}.
Abbreviation state := (@SystemState Positions Extra).
Abbreviation heap := (gmap loc state).
Abbreviation machine := (@machine Positions Extra Energies AccProbs World).
Abbreviation memory := (@memory Positions Extra World).
Abbreviation entry := (@entry Energies AccProbs).
Abbreviation event := (@event Energies AccProbs).
Abbreviation Collaborators := (@Collaborators Positions Extra Energies AccProbs World).
Abbreviation method := (@method Positions Extra World).
Abbreviation emits := (@emits Positions Extra Energies AccProbs World).
Variable env : Collaborators.
Variable G : entry -> Prop.
Implicit Types (s : machine) (states : list loc) (tr : list entry).

Lemma emits_silent {A} (m : prog machine A) :
  (forall s, trace (m s).2 = trace s) -> emits G m.
Proof. intros H s. exists []. by rewrite H, app_nil_r. Qed.

Lemma emits_bind {A B} (m : prog machine A) (k : A -> prog machine B) :
  emits G m -> (forall a, emits G (k a)) -> emits G (bind m k).
Proof.
  intros Hm Hk s. unfold bind. destruct (Hm s) as (tr1 & H1 & HG1).
  destruct (m s) as [[a|e] s1]; simpl in *.
  - destruct (Hk a s1) as (tr2 & H2 & HG2). exists (tr1 ++ tr2).
    rewrite H2, H1, app_assoc. split; [done|]. by apply Forall_app.
  - by exists tr1.
Qed.

Lemma emits_call {A} ev (m : method A) :
  (forall k, G (mkEntry k ev)) -> emits G (call ev m).
Proof.
  intros HG s. unfold call. simpl. destruct (m (mem s)) as [r mem'].
  simpl. eexists. split; [done|]. by constructor.
Qed.

Lemma emits_log_info msg :
  (forall k, G (mkEntry k (Log_info msg))) -> emits G (log_info msg).
Proof. intros HG s. simpl. eexists. split; [done|]. by constructor. Qed.

Lemma emits_on_heap {A} (p : prog heap A) : emits G (on_heap p).
Proof.
  apply emits_silent. intros s. unfold on_heap.
  by destruct (p (objs (mem s))).
Qed.

Lemma emits_py_assert b : emits G (py_assert b).
Proof. apply emits_silent. by destruct b. Qed.

Lemma emits_mapM {A B} (f : A -> prog machine B) (l : list A) :
  (forall x, emits G (f x)) -> emits G (mapM f l).
Proof.
  intros Hf. induction l as [|x l IH]; simpl.
  - by apply emits_silent.
  - apply emits_bind; [done|]. intros y. apply emits_bind; [done|].
    intros ys. by apply emits_silent.
Qed.

Hypothesis G_log : forall k msg, G (mkEntry k (Log_info msg)).
Hypothesis G_call : forall k ev, set_alpha_of ev = None -> G (mkEntry k ev).
Hypothesis G_set_alpha : forall k w, G (mkEntry k (Set_alpha PyFloat.zero w)).

Ltac emits_step :=
  first
    [ apply emits_bind; [|intros ?]
    | apply emits_log_info; intros; apply G_log
    | apply emits_call; intros; first [apply G_set_alpha | by apply G_call]
    | apply emits_on_heap
    | apply emits_py_assert
    | apply emits_mapM; intros ?
    | by apply emits_silent ].

Lemma run_setup_emits : emits G (run_setup env).
Proof. unfold run_setup. repeat emits_step. Qed.

Ltac emits_prim :=
  first
    [ apply emits_log_info; intros; apply G_log
    | apply emits_call; intros; first [apply G_set_alpha | by apply G_call]
    | apply emits_on_heap
    | apply emits_mapM; intros ?;
      apply emits_call; intros; by apply G_call
    | apply emits_silent; intros; reflexivity ].

Ltac emits_next := apply emits_bind; [timeout 10 emits_prim|intros ?].

Lemma run_step_emits states : emits G (run_step env states).
Proof.
  unfold run_step, _compute_energies.
  do 10 emits_next.
  apply emits_bind.
  { destruct (_ =? 1); (apply emits_bind; [emits_prim|intros ?; emits_prim]). }
  intros ?.
  do 23 emits_next.
  emits_prim.
Qed.

Lemma run_loop_emits fuel states s o s' :
  run_loop env fuel states s = Some (o, s') ->
  exists tr, trace s' = trace s ++ tr /\ Forall G tr.
Proof.
  revert states s. induction fuel as [|fuel IH]; intros states s Hrun; [done|].
  simpl in Hrun. destruct (step (self s) <=? max_steps (self s)).
  - destruct (run_step_emits states s) as (tr1 & H1 & HG1).
    destruct (run_step env states s) as [[r|e] s1]; simpl in H1.
    + apply IH in Hrun as (tr2 & H2 & HG2). exists (tr1 ++ tr2).
      rewrite H2, H1, app_assoc. split; [done|]. by apply Forall_app.
    + inversion Hrun; subst. by exists tr1.
  - inversion Hrun; subst. exists []. by rewrite app_nil_r.
Qed.

Lemma run_emits fuel s o s' :
  run env fuel s = Some (o, s') ->
  exists tr, trace s' = trace s ++ tr /\ Forall G tr.
Proof.
  unfold run. intros Hrun.
  destruct (run_setup_emits s) as (tr1 & H1 & HG1).
  destruct (run_setup env s) as [[states|e] s1]; simpl in H1.
  - destruct (run_loop env fuel states s1) as [[[[]|e] s2]|] eqn:Hloop;
      [| |discriminate].
    + apply run_loop_emits in Hloop as (tr2 & H2 & HG2).
      inversion Hrun; subst. simpl.
      exists (tr1 ++ tr2 ++
        [mkEntry (step (self s2)) (Log_info (Msg_finished (max_steps (self s2))))]).
      rewrite H2, H1, <- !app_assoc. split; [done|].
      apply Forall_app. split; [done|]. apply Forall_app. split; [done|].
      constructor; [apply G_log|constructor].
    + apply run_loop_emits in Hloop as (tr2 & H2 & HG2).
      inversion Hrun; subst. exists (tr1 ++ tr2).
      rewrite H2, H1, app_assoc. split; [done|]. by apply Forall_app.
  - inversion Hrun; subst. by exists tr1.
Qed.

End RunInvariants.

(** ** A run with collaborators that do their job completes *)

Section RunCompletes.
Context {Positions Extra Energies AccProbs World : Type}.
Abbreviation state := (@SystemState Positions Extra).
Abbreviation heap := (gmap loc state).
Abbreviation machine := (@machine Positions Extra Energies AccProbs World).
Abbreviation memory := (@memory Positions Extra World).
Abbreviation entry := (@entry Energies AccProbs).
Abbreviation event := (@event Energies AccProbs).
Abbreviation Collaborators := (@Collaborators Positions Extra Energies AccProbs World).
Abbreviation method := (@method Positions Extra World).
Variable env : Collaborators.
Implicit Types (s : machine) (states : list loc) (tr : list entry).

Lemma succeeds_bind {St A B} (m : prog St A) (k : A -> prog St B) (s : St) Q :
  succeeds m s (fun a t => succeeds (k a) t Q) -> succeeds (bind m k) s Q.
Proof.
  intros (a & t & Hm & r & t' & Hk & HQ). exists r, t'.
  split; [|done]. unfold bind. by rewrite Hm.
Qed.

Lemma succeeds_now {St A} (m : prog St A) (s : St) (Q : A -> St -> Prop) a (t : St) :
  m s = (Ok a, t) -> Q a t -> succeeds m s Q.
Proof. intros. by exists a, t. Qed.

Lemma succeeds_call {A} ev (m : method A) s Q post :
  returns m post ->
  (forall a mem', grows (mem s) mem' -> post a mem' ->
     Q a (mkMachine (self s) mem' (trace s ++ [mkEntry (step (self s)) ev]))) ->
  succeeds (call ev m) s Q.
Proof.
  intros Hm HQ. destruct (Hm (mem s)) as (a & mem' & Heq & Hg & Hp).
  eapply succeeds_now; [|by apply HQ].
  unfold call. simpl. by rewrite Heq.
Qed.

Lemma grows_refl (m : memory) : grows m m.
Proof. by intros l. Qed.

Lemma grows_trans (m1 m2 m3 : memory) : grows m1 m2 -> grows m2 m3 -> grows m1 m3.
Proof. intros H1 H2 l Hl. by apply H2, H1. Qed.

Lemma replicas_grows N states (m m' : memory) :
  replicas N states m -> grows m m' -> replicas N states m'.
Proof.
  intros (Hlen & Hnd & Hall) Hg. repeat split; try done.
  eapply Forall_impl; [exact Hall|]. intros l. apply Hg.
Qed.

Lemma compute_energies_succeeds states s Q :
  (forall l, returns (get_energy env l) anything) ->
  (forall es mem' tr', grows (mem s) mem' ->
     Q es (mkMachine (self s) mem' (trace s ++ tr'))) ->
  succeeds (_compute_energies env states) s Q.
Proof.
  intros Hwb. unfold _compute_energies. revert s Q.
  induction states as [|l states IH]; intros s Q HQ; simpl.
  - eapply succeeds_now; [reflexivity|].
    specialize (HQ [] (mem s) [] (grows_refl _)).
    rewrite app_nil_r in HQ. by destruct s.
  - apply succeeds_bind. eapply succeeds_call; [apply Hwb|].
    intros e mem1 Hg1 _. apply succeeds_bind. apply IH.
    intros es mem2 tr2 Hg2. cbn [self mem trace] in *.
    eapply succeeds_now; [reflexivity|].
    rewrite <- app_assoc. apply HQ. by eapply grows_trans.
Qed.


Lemma succeeds_on_heap {A} (p : prog heap A) s Q a h' :
  p (objs (mem s)) = (Ok a, h') ->
  Q a (mkMachine (self s) (mkMemory h' (world (mem s))) (trace s)) ->
  succeeds (on_heap p) s Q.
Proof.
  intros Hp HQ. eapply succeeds_now; [|exact HQ]. unfold on_heap. by rewrite Hp.
Qed.

Ltac simpl_machine :=
  cbn [self mem trace objs world record step max_steps alphas ramp_steps
       n_replicas set_alphas set_step] in *.

Ltac pure_step :=
  apply succeeds_bind; eapply succeeds_now; [reflexivity|]; simpl_machine.

Ltac carry :=
  try match goal with
      | Hr : replicas ?N ?st ?m, Hg : grows ?m ?m' |- _ =>
          pose proof (replicas_grows N st m m' Hr Hg); clear Hr
      end.

Ltac call_with H :=
  eapply succeeds_call; [apply H|];
  let a := fresh "a" in
  let m := fresh "m" in
  let Hg := fresh "Hg" in
  let Hp := fresh "Hp" in
  intros a m Hg Hp; simpl_machine; carry.

Ltac call_step H := apply succeeds_bind; call_with H.

Variable N : Z.
Hypothesis Hwb : well_behaved env N.
Hypothesis HN : 1 <= N.

Lemma run_step_succeeds states s w :
  _compute_ramp_weight (self s) = Ok w ->
  succeeds (run_step env states) s (fun _ s' =>
    step (self s') = step (self s) + 1 /\
    max_steps (self s') = max_steps (self s) /\
    ramp_steps (self s') = ramp_steps (self s) /\
    n_replicas (self s') = n_replicas (self s)).
Proof.
  intros Hw. unfold run_step.
  pure_step. pure_step.
  apply succeeds_bind. eapply succeeds_now; [unfold lift; by rewrite Hw|].
  call_step (wb_set_alpha env N Hwb).
  call_step (wb_adapt env N Hwb).
  pure_step.
  call_step (wb_broadcast_alphas_to_slaves env N Hwb).
  call_step (wb_barrier env N Hwb).
  call_step (wb_broadcast_states_to_slaves env N Hwb).
  call_step (wb_barrier env N Hwb).
  apply succeeds_bind.
  assert (forall (Q : loc -> machine -> Prop) s0 l,
    (forall l' mem' tr', Q l' (mkMachine (self s0) mem' (trace s0 ++ tr'))) ->
    succeeds
      (if step (self s) =? 1
       then do _ <~ log_info Msg_first_step in
            call (Minimize_then_run l) (minimize_then_run env l)
       else do _ <~ log_info Msg_running_md in
            call (Run_dynamics l) (runner_run env l)) s0 Q) as Hdyn.
  { intros Q s0 l HQ. destruct (step (self s) =? 1).
    - pure_step. call_with (wb_minimize_then_run env N Hwb).
      rewrite <- app_assoc. apply HQ.
    - pure_step. call_with (wb_runner_run env N Hwb).
      rewrite <- app_assoc. apply HQ. }
  apply Hdyn. clear Hdyn. intros my_state mem_dyn tr_dyn.
  call_step (wb_gather_states_from_slaves env N Hwb).
  call_step (wb_barrier env N Hwb).
  call_step (wb_broadcast_states_for_energy_calc_to_slaves env N Hwb).
  call_step (wb_barrier env N Hwb).
  apply succeeds_bind. apply compute_energies_succeeds;
    [apply (wb_get_energy env N Hwb)|].
  intros es mem_e tr_e Hg_e. simpl_machine. carry.
  call_step (wb_gather_energies_from_slaves env N Hwb).
  call_step (wb_barrier env N Hwb).
  call_step (wb_compute_exchanges env N Hwb).
  match goal with
  | Hr : replicas N ?st ?m, Hpv : permutation_vector_for N ?pv _ |- _ =>
      destruct Hr as (Hlen & Hnd & Hall); destruct Hpv as (Hlpv & Hrange);
      assert (length pv = length st) as Hlen' by lia;
      assert (Forall (fun p => 0 <= p < Z.of_nat (length st)) pv) as Hrange'
        by (by rewrite Hlen);
      destruct (permute_states_spec (objs m) st pv Hnd Hall ltac:(lia) Hrange')
        as (h' & Hperm & Hslot & Hframe);
      pose proof (permute_states_alloc (objs m) h' st pv Hslot Hframe Hall
                    Hlen' Hrange') as Hall';
      assert (replicas N st (mkMemory h' (world m))) as Hrep
        by (by repeat split)
  end.
  apply succeeds_bind. eapply succeeds_on_heap; [exact Hperm|]. simpl_machine.
  match goal with
  | |- succeeds (bind (call (Reseed ?k ?st) _) _) _ _ =>
      destruct (wb_reseed env N Hwb k st _ Hrep)
        as (states' & m' & Hreseed & Hg' & Hrep')
  end.
  apply succeeds_bind. eapply succeeds_now;
    [unfold call; simpl; rewrite Hreseed; reflexivity|]. simpl_machine.
  assert (exists l0, py_index states' 0 = Ok l0) as [l0 Hl0].
  { destruct Hrep' as (Hl & _ & _). destruct states' as [|l0 rest].
    - simpl in Hl. lia.
    - by exists l0. }
  call_step (wb_save_states env N Hwb).
  apply succeeds_bind. eapply succeeds_now; [unfold lift; by rewrite Hl0|].
  call_step (wb_append_traj env N Hwb).
  call_step (wb_save_alphas env N Hwb).
  call_step (wb_save_permutation_vector env N Hwb).
  call_step (wb_save_energy_matrix env N Hwb).
  call_step (wb_get_acceptance_probabilities env N Hwb).
  call_step (wb_save_acceptance_probabilities env N Hwb).
  call_step (wb_save_data_store env N Hwb).
  pure_step. pure_step.
  call_step (wb_save_remd_runner env N Hwb).
  call_step (wb_backup env N Hwb).
  eapply succeeds_now; [reflexivity|]. simpl_machine. done.
Qed.


Lemma run_loop_completes fuel states s :
  1 <= step (self s) ->
  match ramp_steps (self s) with Some rs => rs < 2 ^ 1023 - 1 | None => True end ->
  (Z.to_nat (max_steps (self s) + 1 - step (self s)) < fuel)%nat ->
  exists s', run_loop env fuel states s = Some (Ok tt, s').
Proof.
  revert states s. induction fuel as [|fuel IH]; intros states s Hstep Hramp Hfuel;
    [lia|].
  simpl. destruct (Z.leb_spec (step (self s)) (max_steps (self s))) as [Hle|Hgt].
  - destruct (compute_ramp_weight_ok (self s) Hstep Hramp) as [w Hw].
    destruct (run_step_succeeds states s w Hw)
      as (r & s1 & -> & Hs & Hm & Hr & _).
    apply IH; [lia|by rewrite Hr|]. rewrite Hs, Hm. lia.
  - by exists s.
Qed.

Lemma run_completes fuel s :
  n_replicas (self s) = comm_n_replicas env (world (mem s)) ->
  n_replicas (self s) = store_n_replicas env (world (mem s)) ->
  1 <= step (self s) ->
  match ramp_steps (self s) with Some rs => rs < 2 ^ 1023 - 1 | None => True end ->
  (Z.to_nat (max_steps (self s) + 1 - step (self s)) < fuel)%nat ->
  exists s', run env fuel s = Some (Ok tt, s').
Proof.
  intros Hc Hs Hstep Hramp Hfuel. unfold run.
  assert (succeeds (run_setup env) s (fun _ s0 => self s0 = self s)) as Hsetup.
  { unfold run_setup. pure_step. pure_step. pure_step.
    apply succeeds_bind. eapply succeeds_now.
    { unfold py_assert. rewrite <- Hc, Z.eqb_refl. reflexivity. }
    pure_step.
    apply succeeds_bind. eapply succeeds_now.
    { unfold py_assert. rewrite <- Hs, Z.eqb_refl. reflexivity. }
    call_with (wb_load_states env N Hwb). done. }
  destruct Hsetup as (states & s0 & -> & Hself).
  destruct (run_loop_completes fuel states s0) as [s1 ->].
  - by rewrite Hself.
  - by rewrite Hself.
  - by rewrite Hself.
  - eexists. reflexivity.
Qed.

End RunCompletes.

(** * The run loop as a whole *)

Section RunClaims.
Context {Positions Extra Energies AccProbs World : Type}.
Abbreviation machine := (@machine Positions Extra Energies AccProbs World).
Abbreviation memory := (@memory Positions Extra World).
Abbreviation entry := (@entry Energies AccProbs).
Abbreviation event := (@event Energies AccProbs).
Abbreviation Collaborators := (@Collaborators Positions Extra Energies AccProbs World).
Variable env : Collaborators.
Implicit Types (s : machine) (m : memory) (tr : list entry).

Lemma run_tags (f : event -> option Z) fuel s s' :
  f = iteration_of \/ f = save_states_of \/ f = append_traj_of \/
  f = save_alphas_of \/ f = save_permutation_vector_of \/
  f = save_energy_matrix_of \/ f = save_acceptance_probabilities_of ->
  trace s = [] -> step (self s) = 1 ->
  run env fuel s = Some (Ok tt, s') ->
  select f (trace s') = seqZ 1 (max_steps (self s)).
Proof.
  intros Hf Htr Hstep Hrun.
  eapply (run_view env (fun e => f (what e)) (fun k => [k])
            (max_steps (self s)) (ramp_steps (self s))) in Hrun as (Hv & _);
    [|intros; by apply step_view_tag|done|done].
  unfold select. rewrite Hv, Htr, Hstep.
  rewrite (flat_map_singleton (fun k => k)), list_fmap_id.
  replace (max_steps (self s) + 1 - 1) with (max_steps (self s)) by lia.
  destruct Hf as [->|[->|[->|[->|[->|[->| ->]]]]]]; simpl; by rewrite app_nil_r.
Qed.

Lemma omap_fmap_option {A B C} (f : A -> option B) (h : B -> C) (l : list A) :
  omap (fun x => h <$> f x) l = h <$> omap f l.
Proof.
  induction l as [|x l IH]; [done|]. simpl.
  destruct (f x); simpl; [f_equal|]; exact IH.
Qed.

Lemma run_pickled_steps fuel s s' :
  trace s = [] -> step (self s) = 1 ->
  run env fuel s = Some (Ok tt, s') ->
  step <$> select save_remd_runner_of (trace s') = seqZ 2 (max_steps (self s)).
Proof.
  intros Htr Hstep Hrun.
  eapply (run_view env (fun e => step <$> save_remd_runner_of (what e))
            (fun k => [k + 1]) (max_steps (self s)) (ramp_steps (self s)))
    in Hrun as (Hv & _); [|intros; by apply step_view_pickled|done|done].
  unfold select.
  etrans; [symmetry; apply (omap_fmap_option
             (fun e : entry => save_remd_runner_of (what e)) step)|].
  cbv beta. rewrite Hv, Htr, Hstep.
  rewrite (flat_map_singleton (fun k => k + 1)).
  replace (max_steps (self s) + 1 - 1) with (max_steps (self s)) by lia.
  simpl. rewrite app_nil_r.
  rewrite <- (fmap_add_seqZ 1 1). apply list_fmap_ext. intros _ k _. lia.
Qed.

Lemma last_seqZ (a n : Z) : 0 < n -> last (seqZ a n) = Some (a + n - 1).
Proof.
  intros Hn. rewrite last_lookup, length_seqZ.
  rewrite lookup_seqZ. split; [|lia]. lia.
Qed.

(** C1: for every K >= 1, a run with [max_steps = K] of a freshly
    constructed coordinator that returns has passed through the loop
    body exactly K times, for the steps 1 to K in order; each of the
    per-step saves (states, trajectory, alphas, permutation vector,
    energy matrix, acceptance probabilities) was called once per pass,
    tagged 1 to K in order; the step counter is K + 1 afterwards, and
    so is the step counter in the last coordinator handed to
    [save_remd_runner].  With collaborators that do their job, and
    fuel for more than K passes, the run does return. *)
Theorem run_checkpoints_every_step N K ramp r0 m :
  1 <= K ->
  __init__ N K ramp = Ok r0 ->
  (forall fuel s',
      run env fuel (mkMachine r0 m []) = Some (Ok tt, s') ->
      select iteration_of (trace s') = seqZ 1 K /\
      select save_states_of (trace s') = seqZ 1 K /\
      select append_traj_of (trace s') = seqZ 1 K /\
      select save_alphas_of (trace s') = seqZ 1 K /\
      select save_permutation_vector_of (trace s') = seqZ 1 K /\
      select save_energy_matrix_of (trace s') = seqZ 1 K /\
      select save_acceptance_probabilities_of (trace s') = seqZ 1 K /\
      step (self s') = K + 1 /\
      step <$> last (select save_remd_runner_of (trace s')) = Some (K + 1)) /\
  (well_behaved env N -> 1 <= N ->
   comm_n_replicas env (world m) = N -> store_n_replicas env (world m) = N ->
   match ramp with Some rs => rs < 2 ^ 1023 - 1 | None => True end ->
   forall fuel, (Z.to_nat K < fuel)%nat ->
     exists s', run env fuel (mkMachine r0 m []) = Some (Ok tt, s')).
Proof.
  intros HK Hinit.
  pose proof (init_inv _ _ _ _ Hinit) as (Hn & Hmax & Hstep & Hramp).
  split.
  - intros fuel s' Hrun.
    pose proof (fun f Hf => run_tags f fuel (mkMachine r0 m []) s' Hf eq_refl Hstep Hrun) as Htag.
    cbn [self] in Htag. rewrite Hmax in Htag.
    repeat (split; [apply Htag; tauto|]).
    split.
    + eapply (run_view env (fun _ => @None unit) (fun _ => []) K ramp)
        in Hrun as (_ & Hs & _); [| |done|done].
      * cbn [self] in Hs. rewrite Hs, Hstep. lia.
      * intros. clear. generalize (step_entries me states w a ms ms' gathered
                                     es en pv r l0 ap).
        intros l. by induction l.
    + rewrite <- fmap_last.
      rewrite (run_pickled_steps fuel (mkMachine r0 m []) s' eq_refl Hstep Hrun).
      cbn [self]. rewrite Hmax, last_seqZ by lia. f_equal. lia.
  - intros Hwb HN Hc Hs Hr fuel Hfuel.
    apply (run_completes env N Hwb HN); cbn [self mem];
      rewrite ?Hramp, ?Hmax, ?Hstep; try done; lia.
Qed.


(** C8: when the communicator's or the store's replica count differs
    from the coordinator's, [run] raises [AssertionError] after the
    opening log message and nothing else: no collaborator was called,
    so no broadcast, gather, barrier, store read or store write has
    occurred, and the memory is untouched. *)
Theorem run_replica_count_mismatch fuel s :
  n_replicas (self s) <> comm_n_replicas env (world (mem s)) \/
  n_replicas (self s) <> store_n_replicas env (world (mem s)) ->
  run env fuel s =
    Some (Raise AssertionError,
          mkMachine (self s) (mem s)
            (trace s ++ [mkEntry (step (self s)) (Log_info Msg_beginning)])).
Proof.
  intros H. unfold run, run_setup, bind, log_info, get_self, read_world, record.
  cbn [self mem trace world].
  destruct (Z.eqb_spec (n_replicas (self s)) (comm_n_replicas env (world (mem s))))
    as [Hc|Hc]; [|reflexivity].
  cbn [py_assert ret self mem trace world].
  destruct (Z.eqb_spec (n_replicas (self s)) (store_n_replicas env (world (mem s))))
    as [Hs|Hs]; [|reflexivity].
  tauto.
Qed.

Lemma base_bias_zero_call (k : Z) (ev : event) :
  set_alpha_of ev = None -> base_bias_zero (mkEntry k ev).
Proof. intros H alpha w Hev. simpl in Hev. subst ev. discriminate. Qed.


End RunClaims.

(** * The ramp weight and the ladder, on doubles *)

(** C3: the ramp weight is not confined to [0, 1].  At the last step
    of the ramp, [step = ramp_steps], the code returns
    [float(ramp_steps + 1) / float(ramp_steps)], which is greater than
    1.0: for a ramp of 10 steps it is the double 1.1, and the weight is
    outside the unit interval at that step for every ramp length from
    1 to 1000. *)
Theorem ramp_weight_exceeds_one n K a :
  _compute_ramp_weight (mkRunner n K 10 (Some 10) a)
    = Ok (S754_finite false 4953959590107546 (-52)) /\
  PyFloat.ltb PyFloat.one (S754_finite false 4953959590107546 (-52)) = true /\
  forall rs, 1 <= rs <= 1000 ->
    ramp_weight_in_unit_interval (mkRunner n K rs (Some rs) a) = false.
Proof.
  split; [reflexivity|]. split; [reflexivity|].
  intros rs Hrs.
  assert (forallb (fun rs => negb (ramp_weight_in_unit_interval
                                     (mkRunner n K rs (Some rs) a)))
            (seqZ 1 1000) = true) as Hall by (vm_compute; reflexivity).
  rewrite forallb_forall in Hall.
  apply negb_true_iff, Hall, list_elem_of_In, elem_of_seqZ. lia.
Qed.

(** C4: the ramp weight is exactly 1.0 when no ramp length is
    configured and when the step is past the ramp; while ramping it is
    the double quotient [float(step + 1) / float(ramp_steps)]; for a
    ramp of 10 steps and step 5 that is 6/10, the double nearest to
    0.6. *)
Theorem ramp_weight_cases me :
  (ramp_steps me = None -> _compute_ramp_weight me = Ok PyFloat.one) /\
  (forall rs, ramp_steps me = Some rs -> rs < step me ->
     _compute_ramp_weight me = Ok PyFloat.one) /\
  (forall rs, ramp_steps me = Some rs -> 1 <= step me <= rs ->
     rs < 2 ^ 1023 - 1 ->
     _compute_ramp_weight me =
       Ok (PyFloat.div (PyFloat.of_Z (step me + 1)) (PyFloat.of_Z rs))) /\
  (ramp_steps me = Some 10 -> step me = 5 ->
     _compute_ramp_weight me = Ok (PyFloat.div (PyFloat.of_Z 6) (PyFloat.of_Z 10)) /\
     PyFloat.div (PyFloat.of_Z 6) (PyFloat.of_Z 10)
       = S754_finite false 5404319552844595 (-53) /\
     2 * Z.abs (5 * 5404319552844595 - 3 * 2 ^ 53) <= 5).
Proof.
  split; [|split; [|split]].
  - intros Hr. unfold _compute_ramp_weight. by rewrite Hr.
  - intros rs Hr Hlt. unfold _compute_ramp_weight. rewrite Hr.
    by destruct (Z.ltb_spec rs (step me)) as [_|?]; [|lia].
  - intros rs Hr Hstep Hlt. by apply compute_ramp_weight_ramping.
  - intros Hr Hstep. split; [|split].
    + unfold _compute_ramp_weight. rewrite Hr, Hstep. reflexivity.
    + vm_compute. reflexivity.
    + vm_compute. discriminate.
Qed.

(** C7: constructing the coordinator with one replica raises
    [ZeroDivisionError] in the ladder set-up.  With zero or a negative
    number of replicas the division is defined and never fails: the
    construction succeeds, with an empty ladder, whenever the replica
    count converts to a double, as it does above [- 2 ^ 1023]; it
    raises [OverflowError] in the conversion otherwise, as it does
    from [- 2 ^ 1024] down. *)
Theorem init_fewer_than_two_replicas N K ramp :
  (N = 1 -> __init__ N K ramp = Raise ZeroDivisionError) /\
  (N <= 0 ->
     __init__ N K ramp =
       if PyFloat.is_infinity (PyFloat.of_Z N) then Raise OverflowError
       else Ok (mkRunner N K 1 ramp [])) /\
  (- 2 ^ 1023 < N <= 0 -> __init__ N K ramp = Ok (mkRunner N K 1 ramp [])) /\
  (N <= - 2 ^ 1024 -> __init__ N K ramp = Raise OverflowError).
Proof.
  split; [|split; [|split]].
  - intros ->. apply init_one.
  - intros HN. unfold __init__, _setup_alphas, ladder_delta, PyFloat.of_int.
    simpl n_replicas.
    destruct (PyFloat.is_infinity (PyFloat.of_Z N)); [reflexivity|].
    simpl rbind.
    assert (PyFloat.is_zero (PyFloat.sub (PyFloat.of_Z N) PyFloat.one) = false)
      as Hz.
    { destruct (Z.eq_dec N 0) as [->|Hne]; [reflexivity|].
      eapply magnitude_ge_not_zero, (sub_one_lo true);
        [apply of_Z_neg; lia|done]. }
    unfold PyFloat.truediv. rewrite Hz. simpl rbind.
    unfold range. replace (Z.to_nat N) with 0%nat by lia. reflexivity.
  - apply init_nonpositive.
  - intros HN. unfold __init__, _setup_alphas, ladder_delta. simpl n_replicas.
    rewrite of_int_overflow by (left; exact HN). reflexivity.
Qed.

(** C9: for N >= 2 replicas the construction succeeds and sets up N
    ladder values [alphas[i] = i * delta], products of doubles with
    [delta = 1.0 / (N - 1.0)]; [alphas[0]] is [0.0]. *)
Theorem init_ladder N K ramp :
  2 <= N < 2 ^ 1023 ->
  exists delta r,
    PyFloat.truediv PyFloat.one (PyFloat.sub (PyFloat.of_Z N) PyFloat.one)
      = Ok delta /\
    __init__ N K ramp = Ok r /\
    n_replicas r = N /\ step r = 1 /\
    Z.of_nat (length (alphas r)) = N /\
    (forall i, 0 <= i < N ->
       alphas r !! Z.to_nat i = Some (PyFloat.mul (PyFloat.of_Z i) delta)) /\
    alphas r !! 0%nat = Some PyFloat.zero.
Proof.
  intros HN. destruct (init_ok N K ramp HN) as (delta & Hd & Hfin & Hinit).
  exists delta. eexists. split; [exact Hd|]. split; [exact Hinit|].
  cbn [n_replicas step alphas].
  assert (forall i, 0 <= i < N ->
            ((fun i => PyFloat.mul (PyFloat.of_Z i) delta) <$> range N)
              !! Z.to_nat i = Some (PyFloat.mul (PyFloat.of_Z i) delta)) as Hl.
  { intros i Hi. rewrite list_lookup_fmap, range_lookup by lia.
    simpl. by rewrite Z2Nat.id by lia. }
  split; [done|]. split; [done|]. split; [|split; [exact Hl|]].
  - rewrite length_fmap, range_length. lia.
  - change 0%nat with (Z.to_nat 0). rewrite (Hl 0) by lia.
    f_equal. by apply mul_zero_l.
Qed.

(** * The scenarios of the specification, evaluated *)

Lemma quiet_anything {A} (a : A) :
  @returns Z unit unit A (Example.quiet a) anything.
Proof. intros m. exists a, m. split; [done|]. split; [|done]. by intros l Hl. Qed.

Lemma gather_replicas : returns Example.gather (replicas 2).
Proof.
  intros m. eexists _, _. split; [reflexivity|]. split.
  - intros l Hl. simpl. apply lookup_union_is_Some. by left.
  - split; [done|]. split.
    + apply (bool_decide_unpack _). vm_compute. reflexivity.
    + apply Forall_cons. split; [|apply Forall_singleton];
        simpl; apply lookup_union_is_Some; right; by eexists.
Qed.

Lemma example_well_behaved : well_behaved Example.env 2.
Proof.
  split; intros; try apply quiet_anything.
  - apply gather_replicas.
  - intros m. destruct (gather_replicas m) as (a & m' & ? & ? & ?).
    by exists a, m'.
  - intros m0. exists [1; 0], m0. split; [done|]. split; [by intros l Hl|].
    split; [done|]. repeat constructor; lia.
  - exists states, m. split; [done|]. split; [by intros l Hl|done].
Qed.

Lemma four_states_NoDup : NoDup Example.four_states.
Proof. apply (bool_decide_unpack _). vm_compute. reflexivity. Qed.

Lemma four_states_allocated :
  Forall (fun l => is_Some (Example.four !! l)) Example.four_states.
Proof. repeat constructor; by eexists. Qed.

(** Two replicas, two steps. *)
Lemma run_checkpoints_every_step_witness :
  exists s',
    run Example.env 3 (Example.fresh 2 None) = Some (Ok tt, s') /\
    select iteration_of (trace s') = [1; 2] /\
    select save_states_of (trace s') = [1; 2] /\
    step (self s') = 3 /\
    step <$> last (select save_remd_runner_of (trace s')) = Some 3.
Proof.
  destruct (run_checkpoints_every_step Example.env 2 2 None
              (Example.runner 2 None) Example.memory0)
    as [Hview Hdone]; [lia|vm_compute; reflexivity|].
  destruct (Hdone example_well_behaved) with (fuel := 3%nat) as [s' Hrun];
    [lia|reflexivity|reflexivity|exact I|simpl; lia|].
  exists s'. split; [exact Hrun|].
  destruct (Hview _ _ Hrun) as (Hi & Hs & _ & _ & _ & _ & _ & Hstep & Hlast).
  repeat split; assumption.
Defined.



Lemma ramp_weight_exceeds_one_witness :
  ramp_weight_in_unit_interval (mkRunner 4 20 3 (Some 3) []) = false.
Proof.
  apply (ramp_weight_exceeds_one 4 20 []). lia.
Defined.

Lemma ramp_weight_cases_witness :
  _compute_ramp_weight (mkRunner 4 20 5 None []) = Ok PyFloat.one /\
  _compute_ramp_weight (mkRunner 4 20 11 (Some 10) []) = Ok PyFloat.one /\
  _compute_ramp_weight (mkRunner 4 20 5 (Some 10) [])
    = Ok (S754_finite false 5404319552844595 (-53)).
Proof.
  destruct (ramp_weight_cases (mkRunner 4 20 5 None [])) as (H1 & _).
  destruct (ramp_weight_cases (mkRunner 4 20 11 (Some 10) [])) as (_ & H2 & _).
  destruct (ramp_weight_cases (mkRunner 4 20 5 (Some 10) []))
    as (_ & _ & H3 & H4).
  split; [apply H1; reflexivity|]. split; [apply (H2 10); [reflexivity|simpl; lia]|].
  destruct H4 as (H5 & H6 & _); [reflexivity|reflexivity|].
  rewrite H5, H6. reflexivity.
Defined.

Lemma permute_states_round_trip_witness :
  _permute_states (range 4) Example.four_states Example.four
    = (Ok Example.four_states, Example.four) /\
  exists h1,
    _permute_states [2; 0; 3; 1] Example.four_states Example.four
      = (Ok Example.four_states, h1) /\
    _permute_states [1; 3; 0; 2] Example.four_states h1
      = (Ok Example.four_states, Example.four).
Proof.
  destruct (permute_states_round_trip Example.four Example.four_states
              four_states_NoDup four_states_allocated) as [Hid Hrt].
  split; [exact Hid|].
  destruct (Hrt [2; 0; 3; 1]) as (h1 & H1 & H2); [reflexivity| |].
  - apply (bool_decide_unpack _). vm_compute. reflexivity.
  - exists h1. split; [exact H1|exact H2].
Defined.

(** The permutation [2,0,3,1] of the scenario: slot 0 ends with what
    slot 2 held. *)
Lemma permute_states_slots_witness :
  exists h',
    _permute_states [2; 0; 3; 1] Example.four_states Example.four
      = (Ok Example.four_states, h') /\
    exists s,
      slot h' Example.four_states 0 = Some s /\
      positions s = 30 /\ energy s = PyFloat.of_Z 3.
Proof.
  destruct (permute_states_slots Example.four Example.four_states [2; 0; 3; 1]
              four_states_NoDup four_states_allocated)
    as (h' & Hrun & Hslots); [reflexivity|repeat constructor; simpl; lia|].
  exists h'. split; [exact Hrun|].
  destruct (Hslots 0%nat 2 eq_refl) as (s & s0 & Hs & Hs0 & Hp & He).
  exists s. split; [exact Hs|].
  vm_compute in Hs0. inversion Hs0; subst s0. split; [exact Hp|exact He].
Defined.

(** Zero replicas: fewer than two, and the construction succeeds. *)
Lemma init_zero_replicas_constructs :
  0 < 2 /\ __init__ 0 1 None = Ok (mkRunner 0 1 1 None []).
Proof. split; [lia|vm_compute; reflexivity]. Qed.

Lemma init_fewer_than_two_replicas_witness :
  __init__ 1 1 None = Raise ZeroDivisionError /\
  __init__ (-3) 1 None = Ok (mkRunner (-3) 1 1 None []) /\
  __init__ (- 2 ^ 1024) 1 None = Raise OverflowError.
Proof.
  split; [|split].
  - apply (init_fewer_than_two_replicas 1 1 None). reflexivity.
  - apply (init_fewer_than_two_replicas (-3) 1 None). simpl. lia.
  - apply (init_fewer_than_two_replicas (- 2 ^ 1024) 1 None). lia.
Defined.

Lemma run_replica_count_mismatch_witness :
  run Example.env 5 (mkMachine (mkRunner 3 5 1 None []) Example.memory0 [])
  = Some (Raise AssertionError,
          mkMachine (mkRunner 3 5 1 None []) Example.memory0
            [mkEntry 1 (Log_info Msg_beginning)]).
Proof.
  apply (run_replica_count_mismatch Example.env 5
           (mkMachine (mkRunner 3 5 1 None []) Example.memory0 [])).
  left. simpl. lia.
Defined.

(** Fifty replicas: the top of the ladder is 49 * (1.0 / 49.0), the
    double just below 1.0. *)
Lemma init_ladder_top_below_one :
  exists r,
    __init__ 50 1 None = Ok r /\
    alphas r !! 49%nat = Some (S754_finite false 9007199254740991 (-53)) /\
    PyFloat.ltb (S754_finite false 9007199254740991 (-53)) PyFloat.one = true.
Proof.
  eexists. split; [vm_compute; reflexivity|].
  split; vm_compute; reflexivity.
Qed.

(** Four replicas, the ladder of the scenario. *)
Lemma init_ladder_witness :
  exists delta r,
    PyFloat.truediv PyFloat.one (PyFloat.sub (PyFloat.of_Z 4) PyFloat.one)
      = Ok delta /\
    __init__ 4 1 None = Ok r /\
    Z.of_nat (length (alphas r)) = 4 /\
    alphas r !! 3%nat = Some (PyFloat.mul (PyFloat.of_Z 3) delta) /\
    alphas r !! 0%nat = Some PyFloat.zero.
Proof.
  destruct (init_ladder 4 1 None) as (delta & r & Hd & Hr & _ & _ & Hlen & Hl & H0).
  { split; [lia|]. apply (Z.lt_le_trans _ (2 ^ 3)); [reflexivity|]. apply Z.pow_le_mono_r; lia. }
  exists delta, r. repeat split; try assumption.
  apply (Hl 3). lia.
Defined.


(** * Further properties of the code *)

(** * More on the run loop *)

Ltac chunk_view :=
  intros; unfold step_entries, select;
  rewrite !omap_app, omap_get_energy by done;
  cbn [omap list_omap app what counter];
  try (destruct (_ =? 1)); reflexivity.

Section RunEdges.
Context {Positions Extra Energies AccProbs World : Type}.
Abbreviation machine := (@machine Positions Extra Energies AccProbs World).
Abbreviation memory := (@memory Positions Extra World).
Abbreviation entry := (@entry Energies AccProbs).
Abbreviation event := (@event Energies AccProbs).
Abbreviation Collaborators := (@Collaborators Positions Extra Energies AccProbs World).
Abbreviation method := (@method Positions Extra World).
Variable env : Collaborators.
Implicit Types (s : machine) (m : memory) (tr : list entry) (states : list loc).

Lemma flat_map_none {A B} (l : list A) : flat_map (fun _ => @nil B) l = [].
Proof. by induction l. Qed.

Lemma flat_map_guard (l : list Z) (P : Z -> bool) :
  flat_map (fun k => if P k then [k] else []) l = filter (fun k => P k = true) l.
Proof.
  induction l as [|k l IH]; [done|]. simpl. rewrite IH.
  destruct (P k) eqn:HP.
  - by rewrite filter_cons_True.
  - rewrite filter_cons_False; [done|]. by rewrite HP.
Qed.

(** X1: a run resumes where the coordinator stands.  Started from a
    coordinator at step [k0], a run that returns has loaded the states
    of stage [k0 - 1], has passed through the loop body for the steps
    [k0] to [max_steps] in order, has written their checkpoints, and
    leaves the step counter at [max_steps + 1], or where it was if
    there was nothing left to do. *)
Theorem run_resumes fuel s s' :
  trace s = [] ->
  run env fuel s = Some (Ok tt, s') ->
  select load_states_of (trace s') = [step (self s) - 1] /\
  select iteration_of (trace s') =
    seqZ (step (self s)) (max_steps (self s) + 1 - step (self s)) /\
  checkpoint_view (trace s') =
    flat_map checkpoint_of_step
      (seqZ (step (self s)) (max_steps (self s) + 1 - step (self s))) /\
  step (self s') = Z.max (step (self s)) (max_steps (self s) + 1).
Proof.
  intros Htr Hrun. split; [|split; [|split]].
  - eapply (run_view env (fun e => load_states_of (what e)) (fun _ => [])
              (max_steps (self s)) (ramp_steps (self s))) in Hrun as (Hv & _);
      [|chunk_view|done|done].
    unfold select. rewrite Hv, Htr, flat_map_none. reflexivity.
  - eapply (run_view env (fun e => iteration_of (what e)) (fun k => [k])
              (max_steps (self s)) (ramp_steps (self s))) in Hrun as (Hv & _);
      [|intros; apply step_view_tag; tauto|done|done].
    unfold select. rewrite Hv, Htr, (flat_map_singleton (fun k => k)), list_fmap_id.
    simpl. by rewrite app_nil_r.
  - eapply (run_view env checkpoint_of checkpoint_of_step
              (max_steps (self s)) (ramp_steps (self s))) in Hrun as (Hv & _);
      [|intros; by apply step_view_checkpoint|done|done].
    unfold checkpoint_view. rewrite Hv, Htr. simpl. by rewrite app_nil_r.
  - eapply (run_view env (fun _ => @None unit) (fun _ => [])
              (max_steps (self s)) (ramp_steps (self s))) in Hrun as (_ & Hs & _);
      [done| |done|done].
    intros. clear. generalize (step_entries me states w a ms ms' gathered
                                 es en pv r l0 ap).
    intros l. by induction l.
Qed.

(** X4: the dynamics starts with a minimization at step 1 and at no
    other step: in a run that returns, [minimize_then_run] was called
    in the pass for step 1, if there was one, and [run] in every other
    pass. *)
Theorem run_minimizes_at_step_one fuel s s' :
  trace s = [] ->
  run env fuel s = Some (Ok tt, s') ->
  omap minimize_of (trace s') =
    filter (fun k => (k =? 1) = true)
      (seqZ (step (self s)) (max_steps (self s) + 1 - step (self s))) /\
  omap run_dynamics_of (trace s') =
    filter (fun k => negb (k =? 1) = true)
      (seqZ (step (self s)) (max_steps (self s) + 1 - step (self s))).
Proof.
  intros Htr Hrun. split.
  - eapply (run_view env minimize_of (fun k => if k =? 1 then [k] else [])
              (max_steps (self s)) (ramp_steps (self s))) in Hrun as (Hv & _);
      [| |done|done].
    + rewrite Hv, Htr, (flat_map_guard _ (fun k => k =? 1)).
      simpl. by rewrite app_nil_r.
    + intros. unfold step_entries, minimize_of.
      rewrite !omap_app, omap_get_energy by done.
      cbn [omap list_omap app what counter].
      destruct (step me =? 1); reflexivity.
  - eapply (run_view env run_dynamics_of (fun k => if negb (k =? 1) then [k] else [])
              (max_steps (self s)) (ramp_steps (self s))) in Hrun as (Hv & _);
      [| |done|done].
    + rewrite Hv, Htr, (flat_map_guard _ (fun k => negb (k =? 1))).
      simpl. by rewrite app_nil_r.
    + intros. unfold step_entries, run_dynamics_of.
      rewrite !omap_app, omap_get_energy by done.
      cbn [omap list_omap app what counter].
      destruct (step me =? 1); reflexivity.
Qed.

(** X5: in a run that returns, every pass through the loop issues
    the same ten collective operations in the same order, each
    broadcast or gather followed by a barrier, and the run issues no
    other collective operation. *)
Theorem run_collective_protocol fuel s s' :
  trace s = [] ->
  run env fuel s = Some (Ok tt, s') ->
  select collective_of (trace s') =
    flat_map (fun _ => step_protocol)
      (seqZ (step (self s)) (max_steps (self s) + 1 - step (self s))).
Proof.
  intros Htr Hrun.
  eapply (run_view env (fun e => collective_of (what e)) (fun _ => step_protocol)
            (max_steps (self s)) (ramp_steps (self s))) in Hrun as (Hv & _);
    [|chunk_view|done|done].
  unfold select. rewrite Hv, Htr. simpl. by rewrite app_nil_r.
Qed.

(** X2: when no step is left, [max_steps < step], a run with
    matching replica counts loads the states of the last stage and
    returns: it logs its two messages, calls nothing but [load_states],
    and leaves the coordinator as it was. *)
Theorem run_nothing_left fuel s states m' :
  max_steps (self s) < step (self s) ->
  n_replicas (self s) = comm_n_replicas env (world (mem s)) ->
  n_replicas (self s) = store_n_replicas env (world (mem s)) ->
  load_states env (step (self s) - 1) (mem s) = (Ok states, m') ->
  run env (S fuel) s =
    Some (Ok tt,
          mkMachine (self s) m'
            (trace s ++
              [mkEntry (step (self s)) (Log_info Msg_beginning);
               mkEntry (step (self s)) (Load_states (step (self s) - 1));
               mkEntry (step (self s)) (Log_info (Msg_finished (max_steps (self s))))])).
Proof.
  intros Hdone Hc Hs Hload.
  unfold run, run_setup, bind, log_info, get_self, read_world, call, record.
  cbn [self mem trace world]. rewrite <- Hc, Z.eqb_refl.
  cbn [py_assert ret self mem trace world]. rewrite <- Hs, Z.eqb_refl.
  cbn [py_assert ret self mem trace world]. rewrite Hload.
  cbn [run_loop self mem trace].
  destruct (Z.leb_spec (step (self s)) (max_steps (self s))) as [?|_]; [lia|].
  cbn [self mem trace]. by rewrite <- !app_assoc.
Qed.

(** X3: an exception of [store.load_states] leaves [run] as it is:
    nothing has been called besides [load_states], and the coordinator
    is unchanged. *)
Theorem run_load_failure fuel s e m' :
  n_replicas (self s) = comm_n_replicas env (world (mem s)) ->
  n_replicas (self s) = store_n_replicas env (world (mem s)) ->
  load_states env (step (self s) - 1) (mem s) = (Raise e, m') ->
  run env fuel s =
    Some (Raise e,
          mkMachine (self s) m'
            (trace s ++
              [mkEntry (step (self s)) (Log_info Msg_beginning);
               mkEntry (step (self s)) (Load_states (step (self s) - 1))])).
Proof.
  intros Hc Hs Hload.
  unfold run, run_setup, bind, log_info, get_self, read_world, call, record.
  cbn [self mem trace world]. rewrite <- Hc, Z.eqb_refl.
  cbn [py_assert ret self mem trace world]. rewrite <- Hs, Z.eqb_refl.
  cbn [py_assert ret self mem trace world]. rewrite Hload.
  by rewrite <- !app_assoc.
Qed.

Lemma call_state {A} (ev : event) (f : method A) s :
  (call ev f s).2 =
    mkMachine (self s) (f (mem s)).2 (trace s ++ [mkEntry (step (self s)) ev]).
Proof. unfold call. simpl. by destruct (f (mem s)). Qed.

Lemma call_eq {A} (ev : event) (f : method A) s :
  call ev f s =
    ((f (mem s)).1,
     mkMachine (self s) (f (mem s)).2 (trace s ++ [mkEntry (step (self s)) ev])).
Proof. unfold call. simpl. by destruct (f (mem s)). Qed.


End RunEdges.

(** ** What holds at every point of a run *)

Section RunConsistent.
Context {Positions Extra Energies AccProbs World : Type}.
Abbreviation machine := (@machine Positions Extra Energies AccProbs World).
Abbreviation memory := (@memory Positions Extra World).
Abbreviation entry := (@entry Energies AccProbs).
Abbreviation event := (@event Energies AccProbs).
Abbreviation Collaborators := (@Collaborators Positions Extra Energies AccProbs World).
Abbreviation method := (@method Positions Extra World).
Abbreviation heap := (gmap loc (@SystemState Positions Extra)).
Abbreviation at_step := (@at_step Positions Extra Energies AccProbs World).
Abbreviation consistent := (@consistent Positions Extra Energies AccProbs World).
Variable env : Collaborators.
Variable r0 : Runner.
Implicit Types (s : machine) (m : memory) (tr : list entry) (states : list loc).

Lemma pickles_snoc tr c (ev : event) :
  pickles (tr ++ [mkEntry c ev]) =
  pickles tr + match save_remd_runner_of ev with Some _ => 1 | None => 0 end.
Proof.
  unfold pickles, select. rewrite omap_app, length_app. simpl.
  destruct (save_remd_runner_of ev); simpl; lia.
Qed.

Lemma at_step_record k s (ev : event) m' :
  at_step r0 k s -> well_tagged (mkEntry k ev) -> save_remd_runner_of ev = None ->
  at_step r0 k (mkMachine (self s) m' (trace s ++ [mkEntry (step (self s)) ev])).
Proof.
  intros [(Htags & Hstep & Hcfg) Hk] Hev Hnone. split; [|done].
  split; [|split; [|done]]; cbn [self trace].
  - apply Forall_app. split; [done|]. rewrite Hk. by constructor.
  - rewrite pickles_snoc, Hnone. lia.
Qed.

Lemma leads_bind {A B} (P Q : machine -> Prop)
    (f : prog machine A) (k : A -> prog machine B) :
  (forall s, P s -> Q s) -> leads P P f -> (forall a, leads P Q (k a)) ->
  leads P Q (bind f k).
Proof.
  intros HPQ Hf Hk s HP. unfold bind. specialize (Hf s HP).
  destruct (f s) as [[a|e] s1]; simpl in *.
  - by apply Hk.
  - by apply HPQ.
Qed.

Lemma leads_get_self {B} k (Q : machine -> Prop) (f : Runner -> prog machine B) :
  (forall me, step me = k -> leads (at_step r0 k) Q (f me)) ->
  leads (at_step r0 k) Q (bind get_self f).
Proof.
  intros Hf s HP. unfold bind, get_self. apply Hf; [|done]. by destruct HP.
Qed.

Lemma leads_call {A} k (ev : event) (f : method A) :
  well_tagged (mkEntry k ev) -> save_remd_runner_of ev = None ->
  leads (at_step r0 k) (at_step r0 k) (call ev f).
Proof.
  intros Hev Hnone s HP. rewrite call_state. by apply at_step_record.
Qed.

Lemma leads_log_info k msg :
  well_tagged (mkEntry k (Log_info msg) : entry) ->
  leads (at_step r0 k) (at_step r0 k) (log_info msg).
Proof. intros Hev s HP. simpl. by apply at_step_record. Qed.

Lemma leads_quiet {A} (P : machine -> Prop) (f : prog machine A) :
  (forall s, (f s).2 = s) -> leads P P f.
Proof. intros Hf s HP. by rewrite Hf. Qed.

Lemma leads_on_heap {A} k (p : prog heap A) :
  leads (at_step r0 k) (at_step r0 k) (on_heap p).
Proof.
  intros s HP. unfold on_heap. destruct (p (objs (mem s))) as [r h'].
  simpl. by destruct HP as [(? & ? & ?) ?].
Qed.

Lemma leads_set_alphas k a :
  leads (at_step r0 k) (at_step r0 k) (update_self (set_alphas a)).
Proof. intros s HP. simpl. by destruct HP as [(? & ? & ?) ?]. Qed.

Lemma leads_mapM {A B} (P : machine -> Prop) (f : A -> prog machine B) (l : list A) :
  (forall x, leads P P (f x)) -> leads P P (mapM f l).
Proof.
  intros Hf. induction l as [|x l IH]; simpl.
  - by apply leads_quiet.
  - apply leads_bind; [done|done|]. intros y.
    apply leads_bind; [done|done|]. intros ys. by apply leads_quiet.
Qed.

Lemma at_step_consistent k s : at_step r0 k s -> consistent r0 s.
Proof. by intros [? ?]. Qed.

Ltac lead_prim :=
  first
    [ apply leads_log_info; unfold well_tagged; simpl; first [done | lia]
    | apply leads_call;
        [unfold well_tagged; simpl; first [done | lia]|reflexivity]
    | apply leads_on_heap
    | apply leads_set_alphas
    | apply leads_mapM; intros ?; apply leads_call; [exact I|reflexivity]
    | apply leads_quiet; intros; reflexivity ].

Ltac lead_next :=
  apply leads_bind; [apply at_step_consistent|lead_prim|intros ?].

Lemma run_step_tail_consistent k states :
  leads (at_step r0 k) (consistent r0)
    (do _ <~ update_self (fun r => set_step (step r + 1) r) in
     do me' <~ get_self in
     do _ <~ call (Save_remd_runner me') (save_remd_runner env me') in
     do _ <~ call (Backup (step me' - 1)) (backup env (step me' - 1)) in
     ret states).
Proof.
  intros s [(Htags & Hstep & Hcfg) Hk].
  set (s0 := mkMachine (set_step (step (self s) + 1) (self s)) (mem s) (trace s)).
  change (consistent r0
    ((do _ <~ call (Save_remd_runner (self s0)) (save_remd_runner env (self s0)) in
      do _ <~ call (Backup (step (self s0) - 1)) (backup env (step (self s0) - 1)) in
      ret states) s0).2).
  unfold bind at 1.
  pose proof (call_state (Save_remd_runner (self s0))
                (save_remd_runner env (self s0)) s0) as Hc.
  destruct (call (Save_remd_runner (self s0)) (save_remd_runner env (self s0)) s0)
    as [r s1].
  simpl in Hc.
  assert (at_step r0 (k + 1) s1) as H1.
  { subst s1. split; [|simpl; lia]. split; [|split; [|done]]; cbn [self trace step].
    - apply Forall_app. split; [done|]. constructor; [|done]. reflexivity.
    - rewrite pickles_snoc. simpl. lia. }
  destruct r as [[]|e]; [|by destruct H1].
  revert H1. generalize s1.
  apply (leads_bind (at_step r0 (k + 1)) (consistent r0));
    [apply at_step_consistent| |].
  - apply leads_call; [subst s0; unfold well_tagged; simpl; lia|reflexivity].
  - intros ? s2 H2. by destruct H2.
Qed.

Lemma run_step_consistent states :
  leads (consistent r0) (consistent r0) (run_step env states).
Proof.
  intros s Hs.
  assert (at_step r0 (step (self s)) s) as HP by done.
  revert HP. generalize (step (self s)) as k. intros k. clear Hs. revert s.
  change (leads (at_step r0 k) (consistent r0) (run_step env states)).
  unfold run_step, _compute_energies.
  apply leads_get_self. intros me Hme. rewrite Hme.
  do 9 lead_next.
  apply leads_bind; [apply at_step_consistent| |intros ?].
  { destruct (_ =? 1); (apply leads_bind; [done|lead_prim|intros ?; lead_prim]). }
  do 19 lead_next.
  apply run_step_tail_consistent.
Qed.

Lemma run_loop_consistent fuel states s o s' :
  consistent r0 s ->
  run_loop env fuel states s = Some (o, s') -> consistent r0 s'.
Proof.
  revert states s. induction fuel as [|fuel IH]; intros states s Hs Hrun; [done|].
  simpl in Hrun. destruct (step (self s) <=? max_steps (self s)).
  - pose proof (run_step_consistent states s Hs) as H1.
    destruct (run_step env states s) as [[r|e] s1]; simpl in H1.
    + by eapply IH.
    + by inversion Hrun; subst.
  - by inversion Hrun; subst.
Qed.

Lemma run_setup_consistent :
  leads (consistent r0) (consistent r0) (run_setup env).
Proof.
  intros s Hs.
  assert (at_step r0 (step (self s)) s) as HP by done.
  revert HP. generalize (step (self s)) as k. intros k. clear Hs. revert s.
  change (leads (at_step r0 k) (consistent r0) (run_setup env)).
  unfold run_setup.
  lead_next. apply leads_get_self. intros me Hme. rewrite Hme.
  lead_next.
  apply leads_bind; [apply at_step_consistent| |intros ?].
  { apply leads_quiet. intros s. by destruct (_ =? _). }
  lead_next.
  apply leads_bind; [apply at_step_consistent| |intros ?].
  { apply leads_quiet. intros s. by destruct (_ =? _). }
  intros s HP. apply at_step_consistent with k. revert s HP.
  apply leads_call; [unfold well_tagged; simpl; lia|reflexivity].
Qed.

End RunConsistent.

(** X6: whatever the collaborators do, and whether the run returns
    or raises: every step argument that [run] passes agrees with the
    step counter at the time of the call (the stage loaded and the
    step backed up are the step before, the coordinator handed to
    [save_remd_runner] carries the counter itself); the step counter
    has advanced exactly once for every [save_remd_runner] call; and
    the replica count, the step limit and the ramp length are never
    changed. *)
Theorem run_consistent {Positions Extra Energies AccProbs World : Type}
    (env : @Collaborators Positions Extra Energies AccProbs World) fuel s o s' :
  trace s = [] ->
  run env fuel s = Some (o, s') ->
  Forall well_tagged (trace s') /\
  step (self s') = step (self s) + pickles (trace s') /\
  same_configuration (self s) (self s').
Proof.
  intros Htr Hrun.
  assert (consistent (self s) s) as Hs.
  { split; [by rewrite Htr|]. rewrite Htr.
    split; [unfold pickles; simpl; lia|done]. }
  unfold run in Hrun.
  pose proof (run_setup_consistent env (self s) s Hs) as H1.
  destruct (run_setup env s) as [[states|e] s1]; simpl in H1.
  - destruct (run_loop env fuel states s1) as [[[[]|e] s2]|] eqn:Hloop;
      [| |discriminate].
    + apply (run_loop_consistent env (self s)) in Hloop; [|done].
      inversion Hrun; subst. destruct Hloop as (Ht & Hst & Hc).
      cbn [self trace record]. split; [|split; [|done]].
      * apply Forall_app. split; [done|]. by constructor.
      * rewrite pickles_snoc. simpl. lia.
    + apply (run_loop_consistent env (self s)) in Hloop; [|done].
      by inversion Hrun; subst.
  - by inversion Hrun; subst.
Qed.

(** ** The ladder through the run *)

Section RunLadder.
Context {Positions Extra Energies AccProbs World : Type}.
Abbreviation machine := (@machine Positions Extra Energies AccProbs World).
Abbreviation entry := (@entry Energies AccProbs).
Abbreviation event := (@event Energies AccProbs).
Abbreviation Collaborators := (@Collaborators Positions Extra Energies AccProbs World).
Variable env : Collaborators.
Implicit Types (s : machine) (tr : list entry) (states : list loc).

Lemma select_app {A} (f : event -> option A) tr1 tr2 :
  select f (tr1 ++ tr2) = select f tr1 ++ select f tr2.
Proof. unfold select. apply omap_app. Qed.

Lemma step_entries_ladder
    me states w a ms ms' gathered es (en : Energies) pv r l0 (ap : AccProbs) :
  let chunk := step_entries me states w a ms ms' gathered es en pv r l0 ap in
  select adapt_of chunk = [alphas me] /\
  select broadcast_alphas_of chunk = [a] /\
  select saved_alphas_of chunk = [a] /\
  select compute_exchanges_of chunk = [en] /\
  select saved_energy_matrix_of chunk = [en] /\
  select adapt_call_of chunk = [(alphas me, step me)] /\
  select gather_energies_of chunk = [es].
Proof. repeat split; chunk_view. Qed.

Lemma run_loop_ladder fuel states s s' :
  run_loop env fuel states s = Some (Ok tt, s') ->
  exists ins outs ens calls gathers,
    select adapt_of (trace s') = select adapt_of (trace s) ++ ins /\
    select broadcast_alphas_of (trace s') =
      select broadcast_alphas_of (trace s) ++ outs /\
    select saved_alphas_of (trace s') = select saved_alphas_of (trace s) ++ outs /\
    select compute_exchanges_of (trace s') =
      select compute_exchanges_of (trace s) ++ ens /\
    select saved_energy_matrix_of (trace s') =
      select saved_energy_matrix_of (trace s) ++ ens /\
    ins ++ [alphas (self s')] = alphas (self s) :: outs /\
    select adapt_call_of (trace s') = select adapt_call_of (trace s) ++ calls /\
    select gather_energies_of (trace s') =
      select gather_energies_of (trace s) ++ gathers /\
    Forall2 (fun c a => returned_by (adapt env c.1 c.2) a) calls outs /\
    Forall2 (fun es en => returned_by (gather_energies_from_slaves env es) en)
      gathers ens.
Proof.
  revert states s. induction fuel as [|fuel IH]; intros states s Hrun; [done|].
  simpl in Hrun. destruct (step (self s) <=? max_steps (self s)).
  - destruct (run_step env states s) as [[r|e] s1] eqn:Hstep; [|discriminate].
    apply run_step_inv_returns in Hstep
      as (w & a & ms & ms' & gathered & es & en & pv & l0 & ap &
          _ & Hadapt & Hgather & Hself & Htr).
    apply IH in Hrun
      as (ins & outs & ens & calls & gathers &
          H1 & H2 & H3 & H4 & H5 & H6 & H7 & H8 & H9 & H10).
    pose proof (step_entries_ladder (self s) states w a ms ms' gathered es en
                  pv r l0 ap) as (C1 & C2 & C3 & C4 & C5 & C6 & C7).
    rewrite Htr, select_app, C1 in H1. rewrite Htr, select_app, C2 in H2.
    rewrite Htr, select_app, C3 in H3. rewrite Htr, select_app, C4 in H4.
    rewrite Htr, select_app, C5 in H5. rewrite Htr, select_app, C6 in H7.
    rewrite Htr, select_app, C7 in H8.
    rewrite Hself in H6. cbn [alphas set_step set_alphas] in H6.
    exists (alphas (self s) :: ins), (a :: outs), (en :: ens),
      ((alphas (self s), step (self s)) :: calls), (es :: gathers).
    rewrite H1, H2, H3, H4, H5, H7, H8, <- !app_assoc. simpl. rewrite H6.
    repeat split; try done; by constructor.
  - inversion Hrun; subst. exists [], [], [], [], []. rewrite !app_nil_r.
    repeat split; try done; constructor.
Qed.


End RunLadder.

(** * More on the exchange permutation *)

Section PermuteEdges.
Context {Positions Extra : Type}.
Abbreviation state := (@SystemState Positions Extra).
Abbreviation heap := (gmap loc state).
Implicit Types (h : heap) (states : list loc) (P : list Z).

Lemma py_index_wrap {A} (l : list A) (p : Z) (x : A) :
  - Z.of_nat (length l) <= p < Z.of_nat (length l) ->
  l !! Z.to_nat (p mod Z.of_nat (length l)) = Some x ->
  py_index l p = Ok x.
Proof.
  intros Hp Hx. unfold py_index.
  destruct (Z.ltb_spec p 0) as [Hneg|Hpos].
  - rewrite <- (Z.mod_add p 1), Z.mod_small in Hx by lia.
    destruct (Z.ltb_spec (p + Z.of_nat (length l)) 0) as [?|_]; [lia|].
    rewrite Z.mul_1_l in Hx. by rewrite Hx.
  - rewrite Z.mod_small in Hx by lia.
    destruct (Z.ltb_spec p 0) as [?|_]; [lia|]. by rewrite Hx.
Qed.

Lemma py_index_out {A} (l : list A) (p : Z) :
  p < - Z.of_nat (length l) \/ Z.of_nat (length l) <= p ->
  py_index l p = Raise IndexError.
Proof.
  intros Hp. unfold py_index.
  destruct (Z.ltb_spec p 0) as [Hneg|Hpos].
  - destruct (Z.ltb_spec (p + Z.of_nat (length l)) 0) as [?|?]; [done|lia].
  - destruct (Z.ltb_spec p 0) as [?|_]; [lia|].
    rewrite lookup_ge_None_2; [done|lia].
Qed.

Lemma wrap_bounds (N p : Z) : - N <= p < N -> 0 <= p mod N < N.
Proof. intros Hp. apply Z.mod_pos_bound. lia. Qed.

Lemma permute_loop_wrap states (oc : list Positions) (oe : list float) P i h :
  NoDup states ->
  (i + length P <= length states)%nat ->
  Forall (fun p => - Z.of_nat (length states) <= p < Z.of_nat (length states)) P ->
  length oc = length states ->
  length oe = length states ->
  exists h',
    for_enumerate (permute_body states oc oe) i P h = (Ok tt, h') /\
    (forall k p l c e,
        P !! k = Some p -> states !! (i + k)%nat = Some l ->
        oc !! Z.to_nat (p mod Z.of_nat (length states)) = Some c ->
        oe !! Z.to_nat (p mod Z.of_nat (length states)) = Some e ->
        h' !! l = (fun s => mkState c e (extra s)) <$> h !! l) /\
    (forall l, (forall k, (k < length P)%nat -> states !! (i + k)%nat ≠ Some l) ->
        h' !! l = h !! l).
Proof.
  intros Hnd. revert i h.
  induction P as [|p P IH]; intros i h Hlen Hrange Hoc Hoe; simpl.
  - exists h. split; [done|]. split; [|done]. intros k ? ? ? ? Hk. by destruct k.
  - apply Forall_cons in Hrange as [Hp Hrange]. simpl in Hlen.
    pose proof (wrap_bounds _ _ Hp) as Hw.
    assert (is_Some (oc !! Z.to_nat (p mod Z.of_nat (length states)))) as [c Hc]
      by (apply lookup_lt_is_Some_2; lia).
    assert (is_Some (oe !! Z.to_nat (p mod Z.of_nat (length states)))) as [e He]
      by (apply lookup_lt_is_Some_2; lia).
    assert (is_Some (states !! i)) as [l Hl] by (apply lookup_lt_is_Some_2; lia).
    set (h1 := alter (set_energy e) l (alter (set_positions c) l h)).
    destruct (IH (S i) h1 ltac:(lia) Hrange Hoc Hoe) as (h' & Hrun & Hslot & Hframe).
    exists h'. split; [|split].
    + unfold permute_body.
      erewrite bind_ok; [exact Hrun|].
      unfold bind, lift.
      rewrite (py_index_wrap _ _ c), (py_index_nat _ _ l), (py_index_wrap _ _ e);
        [done| | |done| |]; rewrite ?Hoc, ?Hoe; done.
    + intros [|k] p' l' c' e' Hp' Hl' Hc' He'; simpl in *.
      * rewrite Nat.add_0_r in Hl'. simplify_eq.
        rewrite Hframe.
        -- unfold h1. rewrite !lookup_alter_eq. by destruct (h !! l).
        -- intros k Hk Hk'.
           assert (i = (S i + k)%nat); [|lia].
           eapply NoDup_lookup; eauto.
      * rewrite (Hslot k p' l' c' e'); [|done| |done..].
        2:{ by replace (S (i + k))%nat with (i + S k)%nat by lia. }
        unfold h1. rewrite !lookup_alter_ne; [done|..];
        intros ->; assert (i = (i + S k)%nat) by (eapply NoDup_lookup; eauto); lia.
    + intros l' Hl'. rewrite Hframe.
      * assert (l ≠ l').
        { intros ->. apply (Hl' 0%nat); [lia|]. by rewrite Nat.add_0_r. }
        unfold h1. by rewrite !lookup_alter_ne.
      * intros k Hk. replace (S i + k)%nat with (i + S k)%nat by lia.
        apply Hl'. lia.
Qed.

Lemma permute_states_spec_wrap h states P :
  NoDup states ->
  Forall (fun l => is_Some (h !! l)) states ->
  (length P <= length states)%nat ->
  Forall (fun p => - Z.of_nat (length states) <= p < Z.of_nat (length states)) P ->
  exists h',
    _permute_states P states h = (Ok states, h') /\
    (forall i p l l0 s s0,
        P !! i = Some p -> states !! i = Some l ->
        states !! Z.to_nat (p mod Z.of_nat (length states)) = Some l0 ->
        h !! l = Some s -> h !! l0 = Some s0 ->
        h' !! l = Some (mkState (positions s0) (energy s0) (extra s))) /\
    (forall l, (forall i, (i < length P)%nat -> states !! i ≠ Some l) ->
        h' !! l = h !! l).
Proof.
  intros Hnd Halloc Hlen Hrange.
  destruct (mapM_getattr positions states h Halloc) as (oc & Hoc & Hloc & Hnoc).
  destruct (mapM_getattr energy states h Halloc) as (oe & Hoe & Hloe & Hnoe).
  destruct (permute_loop_wrap states oc oe P 0 h Hnd ltac:(lia) Hrange Hloc Hloe)
    as (h' & Hrun & Hslot & Hframe).
  exists h'. split; [|split].
  - unfold _permute_states, bind. by rewrite Hoc, Hoe, Hrun.
  - intros i p l l0 s s0 Hp Hl Hl0 Hs Hs0.
    rewrite (Hslot i p l (positions s0) (energy s0)); eauto.
    by rewrite Hs.
  - intros l Hl. by apply Hframe.
Qed.

Lemma for_enumerate_app {St A} (body : nat -> A -> prog St unit) i (l1 l2 : list A) t :
  for_enumerate body i (l1 ++ l2) t =
  match for_enumerate body i l1 t with
  | (Ok _, t1) => for_enumerate body (i + length l1) l2 t1
  | (Raise e, t1) => (Raise e, t1)
  end.
Proof.
  revert i t. induction l1 as [|x l1 IH]; intros i t; simpl.
  - by rewrite Nat.add_0_r.
  - unfold bind. destruct (body i x t) as [[[]|e] t1]; [|done].
    rewrite IH. by replace (S i + length l1)%nat with (i + S (length l1))%nat by lia.
Qed.

Lemma mapM_getattr_raise {A} (f : state -> A) states h :
  Exists (fun l => h !! l = None) states ->
  mapM (getattr f) states h = (Raise AttributeError, h).
Proof.
  induction states as [|l states IH]; intros Hex.
  - by apply Exists_nil in Hex.
  - simpl. unfold bind at 1, getattr at 1.
    destruct (h !! l) as [s|] eqn:Hl; [|done].
    apply Exists_cons in Hex as [Hex|Hex]; [congruence|].
    unfold bind. by rewrite (IH Hex).
Qed.

Lemma leading_slot_dec states (n : nat) (l : loc) :
  (exists i, (i < n)%nat /\ states !! i = Some l) \/
  (forall i, (i < n)%nat -> states !! i ≠ Some l).
Proof.
  destruct (decide (l ∈ take n states)) as [Hin|Hout].
  - left. apply list_elem_of_lookup in Hin as [i Hi].
    apply lookup_take_Some in Hi as [Hi Hlt]. eauto.
  - right. intros i Hi Hl. apply Hout.
    apply (list_elem_of_lookup_2 _ i). apply lookup_take_Some. done.
Qed.

(** X9: a permutation vector entry may be negative, as any Python
    index: an entry [p] with [-N <= p < N] stands for slot [p mod N],
    so slot [i] ends with the positions and the energy that slot
    [P[i] mod N] held, and [-1] takes from the last slot. *)
Theorem permute_states_negative_entries h states P :
  NoDup states ->
  Forall (fun l => is_Some (h !! l)) states ->
  (length P <= length states)%nat ->
  Forall (fun p => - Z.of_nat (length states) <= p < Z.of_nat (length states)) P ->
  exists h',
    _permute_states P states h = (Ok states, h') /\
    forall i p, P !! i = Some p ->
      exists s s0,
        slot h' states i = Some s /\
        slot h states (Z.to_nat (p mod Z.of_nat (length states))) = Some s0 /\
        positions s = positions s0 /\ energy s = energy s0.
Proof.
  intros Hnd Halloc Hlen Hrange.
  destruct (permute_states_spec_wrap h states P Hnd Halloc Hlen Hrange)
    as (h' & Hrun & Hslot & _).
  exists h'. split; [exact Hrun|]. intros i p Hp.
  pose proof (proj1 (Forall_lookup _ _) Hrange i p Hp) as Hb. simpl in Hb.
  pose proof (wrap_bounds _ _ Hb) as Hw.
  assert (is_Some (states !! i)) as [l Hl].
  { apply lookup_lt_is_Some_2. apply lookup_lt_Some in Hp. lia. }
  assert (is_Some (states !! Z.to_nat (p mod Z.of_nat (length states)))) as [l0 Hl0].
  { apply lookup_lt_is_Some_2. lia. }
  destruct (proj1 (Forall_lookup _ _) Halloc i l Hl) as [s Hs].
  destruct (proj1 (Forall_lookup _ _) Halloc _ l0 Hl0) as [s0 Hs0].
  exists (mkState (positions s0) (energy s0) (extra s)), s0.
  unfold slot. rewrite Hl, Hl0. split; [|done].
  by apply (Hslot i p l l0 s s0).
Qed.

(** X10: a permutation vector shorter than the list of states
    overwrites the leading slots only: every object that is not in one
    of the first [len(P)] slots, a state of the list or not, is left
    exactly as it was, and no object is created or deleted. *)
Theorem permute_states_frame h states P :
  NoDup states ->
  Forall (fun l => is_Some (h !! l)) states ->
  (length P <= length states)%nat ->
  Forall (fun p => - Z.of_nat (length states) <= p < Z.of_nat (length states)) P ->
  exists h',
    _permute_states P states h = (Ok states, h') /\
    (forall i, (length P <= i)%nat -> slot h' states i = slot h states i) /\
    (forall l, l ∉ states -> h' !! l = h !! l) /\
    (forall l, is_Some (h' !! l) <-> is_Some (h !! l)).
Proof.
  intros Hnd Halloc Hlen Hrange.
  destruct (permute_states_spec_wrap h states P Hnd Halloc Hlen Hrange)
    as (h' & Hrun & Hslot & Hframe).
  exists h'. split; [exact Hrun|]. split; [|split].
  - intros i Hi. unfold slot. destruct (states !! i) as [l|] eqn:Hl; [|done].
    apply Hframe. intros k Hk Hk'.
    assert (k = i) by (eapply NoDup_lookup; eauto). lia.
  - intros l Hl. apply Hframe. intros i _ Hi.
    apply Hl. by eapply list_elem_of_lookup_2.
  - intros l.
    destruct (leading_slot_dec states (length P) l) as [(i & Hi & Hl)|Hno].
    + assert (is_Some (P !! i)) as [p Hp] by by apply lookup_lt_is_Some_2.
      pose proof (proj1 (Forall_lookup _ _) Hrange i p Hp) as Hb. simpl in Hb.
      pose proof (wrap_bounds _ _ Hb) as Hw.
      assert (is_Some (states !! Z.to_nat (p mod Z.of_nat (length states))))
        as [l0 Hl0] by (apply lookup_lt_is_Some_2; lia).
      destruct (proj1 (Forall_lookup _ _) Halloc i l Hl) as [s Hs].
      destruct (proj1 (Forall_lookup _ _) Halloc _ l0 Hl0) as [s0 Hs0].
      rewrite (Hslot i p l l0 s s0), Hs by done. split; eauto.
    + by rewrite Hframe.
Qed.

(** X11: the exchange copies positions and energy and nothing else:
    the other attributes of a state object stay in their slot. *)
Theorem permute_states_keeps_other_attributes h states P :
  NoDup states ->
  Forall (fun l => is_Some (h !! l)) states ->
  (length P <= length states)%nat ->
  Forall (fun p => - Z.of_nat (length states) <= p < Z.of_nat (length states)) P ->
  exists h',
    _permute_states P states h = (Ok states, h') /\
    forall l s, h !! l = Some s ->
      exists s', h' !! l = Some s' /\ extra s' = extra s.
Proof.
  intros Hnd Halloc Hlen Hrange.
  destruct (permute_states_spec_wrap h states P Hnd Halloc Hlen Hrange)
    as (h' & Hrun & Hslot & Hframe).
  exists h'. split; [exact Hrun|]. intros l s Hs.
  destruct (leading_slot_dec states (length P) l) as [(i & Hi & Hl)|Hno].
  - assert (is_Some (P !! i)) as [p Hp] by by apply lookup_lt_is_Some_2.
    pose proof (proj1 (Forall_lookup _ _) Hrange i p Hp) as Hb. simpl in Hb.
    pose proof (wrap_bounds _ _ Hb) as Hw.
    assert (is_Some (states !! Z.to_nat (p mod Z.of_nat (length states))))
      as [l0 Hl0] by (apply lookup_lt_is_Some_2; lia).
    destruct (proj1 (Forall_lookup _ _) Halloc _ l0 Hl0) as [s0 Hs0].
    eexists. split; [by apply (Hslot i p l l0 s s0)|done].
  - exists s. split; [|done]. by rewrite Hframe.
Qed.

(** X12: an out-of-range entry, or an entry beyond the last slot
    of the list, raises [IndexError]; the slots that were assigned
    before stay overwritten: the heap is the one that the valid
    prefix of the permutation vector leaves behind. *)
Theorem permute_states_index_error h states P1 p P2 :
  NoDup states ->
  Forall (fun l => is_Some (h !! l)) states ->
  (length P1 <= length states)%nat ->
  Forall (fun q => - Z.of_nat (length states) <= q < Z.of_nat (length states)) P1 ->
  length P1 = length states \/
    p < - Z.of_nat (length states) \/ Z.of_nat (length states) <= p ->
  exists h1,
    _permute_states P1 states h = (Ok states, h1) /\
    _permute_states (P1 ++ p :: P2) states h = (Raise IndexError, h1).
Proof.
  intros Hnd Halloc Hlen Hrange Hbad.
  destruct (mapM_getattr positions states h Halloc) as (oc & Hoc & Hloc & _).
  destruct (mapM_getattr energy states h Halloc) as (oe & Hoe & Hloe & _).
  destruct (permute_loop_wrap states oc oe P1 0 h Hnd ltac:(lia) Hrange Hloc Hloe)
    as (h1 & Hrun & _).
  exists h1. split.
  - unfold _permute_states, bind. by rewrite Hoc, Hoe, Hrun.
  - unfold _permute_states, bind. rewrite Hoc, Hoe, for_enumerate_app, Hrun.
    simpl. unfold bind at 1, permute_body at 1.
    destruct (decide (p < - Z.of_nat (length states) \/ Z.of_nat (length states) <= p))
      as [Hout|Hin].
    + unfold bind, lift. rewrite py_index_out; [done|]. by rewrite Hloc.
    + destruct Hbad as [Hfull|?]; [|done].
      pose proof (wrap_bounds (Z.of_nat (length states)) p ltac:(lia)) as Hw.
      assert (is_Some (oc !! Z.to_nat (p mod Z.of_nat (length states)))) as [c Hc]
        by (apply lookup_lt_is_Some_2; lia).
      unfold bind, lift. rewrite (py_index_wrap _ _ c); [| |]; rewrite ?Hloc; [|lia|done].
      rewrite py_index_out; [done|]. lia.
Qed.

(** X13: when one of the objects in the list is not a state, the
    attribute reads at the start raise [AttributeError] and no state
    has been touched. *)
Theorem permute_states_attribute_error h states P :
  Exists (fun l => h !! l = None) states ->
  _permute_states P states h = (Raise AttributeError, h).
Proof.
  intros Hex. unfold _permute_states, bind.
  destruct (decide (Forall (fun l => is_Some (h !! l)) states)) as [Hall|_].
  - apply Exists_exists in Hex as (l & Hl & Hnone).
    rewrite Forall_forall in Hall. destruct (Hall l Hl) as [s Hs]. congruence.
  - by rewrite mapM_getattr_raise.
Qed.

(** X14: two exchanges in a row compose: after [P] and then [Q],
    slot [i] holds the positions and the energy that slot [P[Q[i]]]
    held at the start. *)
Theorem permute_states_compose h states P Q :
  NoDup states ->
  Forall (fun l => is_Some (h !! l)) states ->
  length P = length states -> length Q = length states ->
  Forall (fun p => 0 <= p < Z.of_nat (length states)) P ->
  Forall (fun q => 0 <= q < Z.of_nat (length states)) Q ->
  exists h1 h2,
    _permute_states P states h = (Ok states, h1) /\
    _permute_states Q states h1 = (Ok states, h2) /\
    forall i q p, Q !! i = Some q -> P !! Z.to_nat q = Some p ->
      exists s s0,
        slot h2 states i = Some s /\ slot h states (Z.to_nat p) = Some s0 /\
        positions s = positions s0 /\ energy s = energy s0.
Proof.
  intros Hnd Halloc HlP HlQ HP HQ.
  destruct (permute_states_spec h states P Hnd Halloc ltac:(lia) HP)
    as (h1 & Hrun1 & Hslot1 & Hframe1).
  pose proof (permute_states_alloc h h1 states P Hslot1 Hframe1 Halloc HlP HP)
    as Halloc1.
  destruct (permute_states_spec h1 states Q Hnd Halloc1 ltac:(lia) HQ)
    as (h2 & Hrun2 & Hslot2 & _).
  exists h1, h2. split; [exact Hrun1|]. split; [exact Hrun2|].
  intros i q p Hq Hp.
  pose proof (proj1 (Forall_lookup _ _) HQ i q Hq) as Hbq. simpl in Hbq.
  pose proof (proj1 (Forall_lookup _ _) HP _ p Hp) as Hbp. simpl in Hbp.
  assert (is_Some (states !! i)) as [l Hl].
  { apply lookup_lt_is_Some_2. apply lookup_lt_Some in Hq. lia. }
  assert (is_Some (states !! Z.to_nat q)) as [lq Hlq]
    by (apply lookup_lt_is_Some_2; lia).
  assert (is_Some (states !! Z.to_nat p)) as [lp Hlp]
    by (apply lookup_lt_is_Some_2; lia).
  destruct (proj1 (Forall_lookup _ _) Halloc _ lq Hlq) as [sq Hsq].
  destruct (proj1 (Forall_lookup _ _) Halloc _ lp Hlp) as [sp Hsp].
  destruct (proj1 (Forall_lookup _ _) Halloc1 _ l Hl) as [s1 Hs1].
  pose proof (Hslot1 _ p lq lp sq sp Hp Hlq Hlp Hsq Hsp) as Hq1.
  pose proof (Hslot2 i q l lq s1 _ Hq Hl Hlq Hs1 Hq1) as Hi2.
  eexists _, sp. unfold slot. rewrite Hl, Hlp. split; [exact Hi2|]. done.
Qed.

End PermuteEdges.

(** * More on the ladder and the ramp *)

Section FloatEdges.
Import PyFloat.

Lemma rmapM_length {A B} (f : A -> result B) (l : list A) (ys : list B) :
  rmapM f l = Ok ys -> length ys = length l.
Proof.
  revert ys. induction l as [|x l IH]; intros ys; simpl.
  - by intros [= <-].
  - destruct (f x) as [y|e]; [|discriminate]. simpl.
    destruct (rmapM f l) as [ys'|e]; [|discriminate]. simpl.
    intros [= <-]. simpl. by rewrite (IH ys').
Qed.

Lemma of_Z_nonzero n :
  n <> 0 -> is_zero (of_Z n) = false.
Proof.
  intros Hn. destruct (Z.lt_trichotomy n 0) as [Hneg|[?|Hpos]]; [|done|].
  - eapply magnitude_ge_not_zero. by apply of_Z_neg.
  - eapply magnitude_ge_not_zero. by apply of_Z_pos.
Qed.

Lemma div_self sx mx ex :
  div (S754_finite sx mx ex) (S754_finite sx mx ex) = one.
Proof.
  unfold div. rewrite SFdiv_finite.
  assert (SFdiv_core_binary prec emax (Zpos mx) ex (Zpos mx) ex
          = (2 ^ 53, -53, loc_Exact)) as ->.
  { unfold SFdiv_core_binary.
    rewrite !Z.sub_diag. change (Z.min (fexp prec emax 0) 0) with (-53).
    change (0 - -53) with 53.
    cbv zeta iota. rewrite Z.shiftl_mul_pow2 by lia.
    assert (Z.div_eucl (Zpos mx * 2 ^ 53) (Zpos mx) = (2 ^ 53, 0)) as ->.
    { assert ((Zpos mx * 2 ^ 53) / Zpos mx = 2 ^ 53) as Hq
        by (rewrite Z.mul_comm; apply Z.div_mul; lia).
      assert ((Zpos mx * 2 ^ 53) mod Zpos mx = 0) as Hr
        by (rewrite Z.mul_comm; apply Z.mod_mul; lia).
      unfold Z.div, Z.modulo in Hq, Hr.
      destruct (Z.div_eucl (Zpos mx * 2 ^ 53) (Zpos mx)) as [q r].
      simpl in Hq, Hr. by subst q r. }
    unfold new_location, new_location_even, new_location_odd.
    by destruct (Z.even (Zpos mx)). }
  simpl fst. simpl snd. rewrite xorb_nilpotent. reflexivity.
Qed.

(** X15: a coordinator that was constructed holds the attributes it
    was given and starts at step 1; it never has exactly one replica,
    and its ladder has one value per replica, none when the replica
    count is not positive. *)
Theorem init_returns N K ramp r :
  __init__ N K ramp = Ok r ->
  n_replicas r = N /\ max_steps r = K /\ step r = 1 /\ ramp_steps r = ramp /\
  length (alphas r) = Z.to_nat N /\ N <> 1.
Proof.
  intros Hinit. split; [|split; [|split; [|split; [|split]]]].
  1-4: by apply init_inv in Hinit as (? & ? & ? & ?).
  - unfold __init__, _setup_alphas in Hinit. simpl n_replicas in Hinit.
    destruct (ladder_delta N) as [delta|e]; [|discriminate]. simpl in Hinit.
    destruct (rmapM _ _) as [a|e] eqn:Ha; [|discriminate]. simpl in Hinit.
    injection Hinit as <-. simpl.
    apply rmapM_length in Ha. by rewrite Ha, range_length.
  - intros ->. by rewrite init_one in Hinit.
Qed.

(** X16: a replica count too large for a double makes the
    construction fail with [OverflowError], in the conversion of the
    count to a float. *)
Theorem init_overflow N K ramp :
  N <= - 2 ^ 1024 \/ 2 ^ 1024 <= N ->
  __init__ N K ramp = Raise OverflowError.
Proof.
  intros HN. unfold __init__, _setup_alphas, ladder_delta. simpl n_replicas.
  by rewrite of_int_overflow.
Qed.

(** X17: the ramp weight divides by zero only when the ramp length is
    0 and the step counter is not positive; from step 1 on, a ramp
    length of 0 gives the weight 1.0. *)
Theorem ramp_weight_zero_division me rs :
  ramp_steps me = Some rs ->
  - 2 ^ 1023 < step me + 1 < 2 ^ 1023 -> - 2 ^ 1023 < rs < 2 ^ 1023 ->
  (_compute_ramp_weight me = Raise ZeroDivisionError <-> rs = 0 /\ step me <= 0) /\
  (rs = 0 -> 1 <= step me -> _compute_ramp_weight me = Ok one).
Proof.
  intros Hrs Hstep Hb. unfold _compute_ramp_weight. rewrite Hrs.
  destruct (Z.ltb_spec rs (step me)) as [Hlt|Hge].
  - split; [|done]. split; [discriminate|lia].
  - rewrite !of_int_ok by lia. simpl rbind. unfold truediv.
    destruct (Z.eq_dec rs 0) as [->|Hne].
    + split; [|lia]. split; [|done]. intros _. lia.
    + rewrite of_Z_nonzero by done. split; [|lia]. split; [discriminate|lia].
Qed.

(** X18: the ramp is complete one step early: at step
    [ramp_steps - 1] the weight is already exactly 1.0. *)
Theorem ramp_weight_one_step_early me rs :
  ramp_steps me = Some rs -> step me = rs - 1 -> 1 <= step me ->
  rs < 2 ^ 1023 - 1 ->
  _compute_ramp_weight me = Ok one.
Proof.
  intros Hrs Hstep H1 Hb.
  rewrite (compute_ramp_weight_ramping me rs) by (done || lia).
  replace (step me + 1) with rs by lia. f_equal.
  pose proof (of_Z_pos rs ltac:(lia)) as Hpos.
  pose proof (of_Z_finite rs ltac:(lia)) as Hfin.
  destruct (of_Z rs) as [| | |s m e]; try done.
  apply div_self.
Qed.

End FloatEdges.

(** ** The further properties, evaluated *)

Lemma labelled_allocated :
  Forall (fun l => is_Some (Example.labelled !! l)) Example.four_states.
Proof. repeat constructor; by eexists. Qed.

Lemma four_bounds (P : list Z) :
  forallb (fun p => (-4 <=? p) && (p <? 4)) P = true ->
  Forall (fun p => - Z.of_nat (length Example.four_states) <= p
                   < Z.of_nat (length Example.four_states)) P.
Proof.
  intros H. apply Forall_forall. intros p Hp%list_elem_of_In.
  rewrite forallb_forall in H. specialize (H p Hp). simpl. lia.
Qed.

(** A run resumed at step 2 of 3. *)
Lemma run_resumes_witness :
  exists s',
    run Example.env 3 Example.resumed = Some (Ok tt, s') /\
    select load_states_of (trace s') = [1] /\
    select iteration_of (trace s') = [2; 3] /\
    step (self s') = 4.
Proof.
  eexists. split; [vm_compute; reflexivity|].
  destruct (run_resumes Example.env 3 Example.resumed _ eq_refl
              ltac:(vm_compute; reflexivity)) as (H1 & H2 & _ & H4).
  split; [exact H1|]. split; [exact H2|exact H4].
Defined.

(** A run of a coordinator that has finished its three steps. *)
Lemma run_nothing_left_witness :
  exists m',
    run Example.env 1 (mkMachine (mkRunner 2 3 4 None []) Example.memory0 []) =
      Some (Ok tt,
            mkMachine (mkRunner 2 3 4 None []) m'
              [mkEntry 4 (Log_info Msg_beginning); mkEntry 4 (Load_states 3);
               mkEntry 4 (Log_info (Msg_finished 3))]).
Proof.
  eexists.
  apply (run_nothing_left Example.env 0
           (mkMachine (mkRunner 2 3 4 None []) Example.memory0 [])
           [1; 2]%positive).
  - simpl. lia.
  - reflexivity.
  - reflexivity.
  - reflexivity.
Defined.

Lemma run_load_failure_witness :
  run Example.env_no_store 3 (Example.fresh 2 None) =
    Some (Raise (CollaboratorError 5),
          mkMachine (Example.runner 2 None) Example.memory0
            [mkEntry 1 (Log_info Msg_beginning); mkEntry 1 (Load_states 0)]).
Proof.
  apply (run_load_failure Example.env_no_store 3 (Example.fresh 2 None)
           (CollaboratorError 5) Example.memory0); reflexivity.
Defined.

Lemma run_minimizes_at_step_one_witness :
  exists s',
    run Example.env 4 (Example.fresh 3 None) = Some (Ok tt, s') /\
    omap minimize_of (trace s') = [1] /\
    omap run_dynamics_of (trace s') = [2; 3].
Proof.
  eexists. split; [vm_compute; reflexivity|].
  apply (run_minimizes_at_step_one Example.env 4 (Example.fresh 3 None) _ eq_refl).
  vm_compute. reflexivity.
Defined.

Lemma run_collective_protocol_witness :
  exists s',
    run Example.env 3 (Example.fresh 2 None) = Some (Ok tt, s') /\
    select collective_of (trace s') = step_protocol ++ step_protocol.
Proof.
  eexists. split; [vm_compute; reflexivity|].
  apply (run_collective_protocol Example.env 3 (Example.fresh 2 None) _ eq_refl).
  vm_compute. reflexivity.
Defined.

(** A run whose ladder fails in the first pass: nothing was pickled,
    and the step counter has not moved. *)
Lemma run_consistent_witness :
  exists e s',
    run Example.env_no_ladder 3 (Example.fresh 2 None) = Some (Raise e, s') /\
    Forall well_tagged (trace s') /\
    step (self s') = 1 + pickles (trace s') /\
    pickles (trace s') = 0.
Proof.
  eexists _, _. split; [vm_compute; reflexivity|].
  destruct (run_consistent Example.env_no_ladder 3 (Example.fresh 2 None) _ _
              eq_refl ltac:(vm_compute; reflexivity)) as (H1 & H2 & _).
  split; [exact H1|]. split; [exact H2|reflexivity].
Defined.


(** The entry -1 takes from the last slot. *)
Lemma permute_states_negative_entries_witness :
  exists h',
    _permute_states [-1; 0; -3; 2] Example.four_states Example.four
      = (Ok Example.four_states, h') /\
    exists s,
      slot h' Example.four_states 0 = Some s /\
      positions s = 40 /\ energy s = PyFloat.of_Z 4.
Proof.
  destruct (permute_states_negative_entries Example.four Example.four_states
              [-1; 0; -3; 2] four_states_NoDup four_states_allocated)
    as (h' & Hrun & Hslots); [simpl; lia|by apply four_bounds|].
  exists h'. split; [exact Hrun|].
  destruct (Hslots 0%nat (-1) eq_refl) as (s & s0 & Hs & Hs0 & Hp & He).
  exists s. split; [exact Hs|].
  vm_compute in Hs0. inversion Hs0; subst s0. split; [exact Hp|exact He].
Defined.

(** A permutation vector for the first two slots only. *)
Lemma permute_states_frame_witness :
  exists h',
    _permute_states [1; 0] Example.four_states Example.four
      = (Ok Example.four_states, h') /\
    slot h' Example.four_states 2 = Some (Example.state_at 30 3) /\
    slot h' Example.four_states 3 = Some (Example.state_at 40 4).
Proof.
  destruct (permute_states_frame Example.four Example.four_states [1; 0]
              four_states_NoDup four_states_allocated)
    as (h' & Hrun & Hslots & _); [simpl; lia|by apply four_bounds|].
  exists h'. split; [exact Hrun|].
  split; [apply (Hslots 2%nat)|apply (Hslots 3%nat)]; simpl; lia.
Defined.

Lemma permute_states_keeps_other_attributes_witness :
  exists h' s,
    _permute_states [2; 0; 3; 1] Example.four_states Example.labelled
      = (Ok Example.four_states, h') /\
    h' !! 1%positive = Some s /\ extra s = 100.
Proof.
  destruct (permute_states_keeps_other_attributes Example.labelled
              Example.four_states [2; 0; 3; 1]
              four_states_NoDup labelled_allocated)
    as (h' & Hrun & Hkeep); [simpl; lia|by apply four_bounds|].
  destruct (Hkeep 1%positive (mkState 10 (PyFloat.of_Z 1) 100) eq_refl)
    as (s & Hs & He).
  exists h', s. split; [exact Hrun|]. split; [exact Hs|exact He].
Defined.

(** The entry 7 is out of range for four states: the first two slots
    have been exchanged when the exception is raised. *)
Lemma permute_states_index_error_witness :
  exists h1,
    _permute_states [1; 0; 7; 2] Example.four_states Example.four
      = (Raise IndexError, h1) /\
    _permute_states [1; 0] Example.four_states Example.four
      = (Ok Example.four_states, h1).
Proof.
  destruct (permute_states_index_error Example.four Example.four_states
              [1; 0] 7 [2] four_states_NoDup four_states_allocated)
    as (h1 & H1 & H2); [simpl; lia|by apply four_bounds|simpl; lia|].
  exists h1. split; [exact H2|exact H1].
Defined.

Lemma permute_states_attribute_error_witness :
  _permute_states [1; 0] [1; 9]%positive Example.four
    = (Raise AttributeError, Example.four).
Proof.
  apply (permute_states_attribute_error Example.four [1; 9]%positive [1; 0]).
  apply Exists_cons. right. apply Exists_cons. left. reflexivity.
Defined.

Lemma permute_states_compose_witness :
  exists h1 h2 s,
    _permute_states [2; 0; 3; 1] Example.four_states Example.four
      = (Ok Example.four_states, h1) /\
    _permute_states [1; 2; 3; 0] Example.four_states h1
      = (Ok Example.four_states, h2) /\
    slot h2 Example.four_states 0 = Some s /\ positions s = 10.
Proof.
  destruct (permute_states_compose Example.four Example.four_states
              [2; 0; 3; 1] [1; 2; 3; 0]
              four_states_NoDup four_states_allocated)
    as (h1 & h2 & H1 & H2 & Hslots);
    [reflexivity|reflexivity| | |].
  - repeat constructor; simpl; lia.
  - repeat constructor; simpl; lia.
  - destruct (Hslots 0%nat 1 0 eq_refl eq_refl) as (s & s0 & Hs & Hs0 & Hp & _).
    exists h1, h2, s. split; [exact H1|]. split; [exact H2|]. split; [exact Hs|].
    vm_compute in Hs0. inversion Hs0; subst s0. exact Hp.
Defined.

Lemma init_returns_witness :
  step (Example.runner 3 (Some 10)) = 1 /\
  length (alphas (Example.runner 3 (Some 10))) = 2%nat.
Proof.
  destruct (init_returns 2 3 (Some 10) (Example.runner 3 (Some 10)))
    as (_ & _ & H3 & _ & H5 & _); [vm_compute; reflexivity|].
  split; [exact H3|exact H5].
Defined.

Lemma init_overflow_witness :
  __init__ (2 ^ 1024) 1 None = Raise OverflowError.
Proof. apply (init_overflow (2 ^ 1024) 1 None). right. lia. Defined.

Lemma ramp_weight_zero_division_witness :
  _compute_ramp_weight (mkRunner 2 5 0 (Some 0) []) = Raise ZeroDivisionError /\
  _compute_ramp_weight (mkRunner 2 5 1 (Some 0) []) = Ok PyFloat.one.
Proof.
  assert (0 < 2 ^ 1023) as Hpow by (apply Z.pow_pos_nonneg; lia).
  split.
  - destruct (ramp_weight_zero_division (mkRunner 2 5 0 (Some 0) []) 0)
      as [[_ H] _]; [reflexivity|simpl; lia|lia|].
    apply H. simpl. lia.
  - destruct (ramp_weight_zero_division (mkRunner 2 5 1 (Some 0) []) 0)
      as [_ H]; [reflexivity|simpl; lia|lia|].
    apply H; [reflexivity|simpl; lia].
Defined.

Lemma ramp_weight_one_step_early_witness :
  _compute_ramp_weight (mkRunner 2 20 9 (Some 10) []) = Ok PyFloat.one.
Proof.
  apply (ramp_weight_one_step_early (mkRunner 2 20 9 (Some 10) []) 10);
    [reflexivity|reflexivity|simpl; lia|].
  apply (Z.lt_le_trans _ (2 ^ 4 - 1)); [reflexivity|].
  apply Z.sub_le_mono_r, Z.pow_le_mono_r; lia.
Defined.
